(** * Cuda-example: element-wise vector addition on a device, checked on the host

    A shallow embedding of [main.cu]: the tolerance comparator [isClose], the
    kernel [vectorAddition] with its launch grid, and the host program [main]
    with its early exits.

    [real_type] is [double].  A double is an IEEE 754 binary64 value, embedded
    as [spec_float] with precision 53 and maximal exponent 1024; arithmetic is
    the correctly rounded (to nearest, ties to even) arithmetic of the
    standard library's executable specification. *)

From Stdlib Require Import ZArith Lia Bool List String.
From Stdlib Require Import Floats.SpecFloat.
From stdpp Require Import base option list gmap.

Local Open Scope Z_scope.

(** ** Doubles *)

Module Real.

Definition prec : Z := 53.
Definition emax : Z := 1024.

Definition real_type : Type := spec_float.

(** Every value a [double] variable can hold is a canonical binary64. *)
Definition wf (x : real_type) : Prop := valid_binary prec emax x = true.

Definition zero : real_type := S754_zero false.
Definition nan : real_type := S754_nan.
Definition pinf : real_type := S754_infinity false.
Definition one : real_type := S754_finite false 4503599627370496 (-52).

Definition add : real_type -> real_type -> real_type := SFadd prec emax.
Definition sub : real_type -> real_type -> real_type := SFsub prec emax.
Definition mul : real_type -> real_type -> real_type := SFmul prec emax.
Definition fabs : real_type -> real_type := SFabs.

(** The comparisons [==], [<=], [<], [>=], [>] of C on doubles. *)
Definition eqb : real_type -> real_type -> bool := SFeqb.
Definition leb : real_type -> real_type -> bool := SFleb.
Definition ltb : real_type -> real_type -> bool := SFltb.
Definition geb (x y : real_type) : bool := SFleb y x.
Definition gtb (x y : real_type) : bool := SFltb y x.

(** [isfinite] of <math.h>: neither an infinity nor a NaN. *)
Definition isfinite (x : real_type) : bool :=
  match x with
  | S754_zero _ | S754_finite _ _ _ => true
  | S754_infinity _ | S754_nan => false
  end.

End Real.

Import Real.

(** ** The tolerance comparator *)

(** [assert (e)] aborts the process when [e] is false: [isClose] then returns
    nothing, which is [None].  C's [int] truth values 1 and 0 are [true] and
    [false]. *)
Definition isClose (x y rel_tol abs_tol : real_type) : option bool :=
  if negb (geb rel_tol zero) then None
  else if negb (geb abs_tol zero) then None
  else if isfinite x && isfinite y then
    if eqb x y then Some true
    else
      let abs_diff := fabs (sub x y) in
      Some (leb abs_diff abs_tol
            || leb abs_diff (mul rel_tol (fabs x))
            || leb abs_diff (mul rel_tol (fabs y)))
  else Some (eqb x y).

(** The literals [1e-8] and [1e-16], rounded to the nearest double. *)
Definition lit_1e_8 : real_type := S754_finite false 6044629098073146 (-79).
Definition lit_1e_16 : real_type := S754_finite false 8112963841460668 (-106).

(** ** Device memory and the kernel *)

(** Memory, of the host or of the device, is a set of blocks, one per
    allocation, each an array of doubles.  A pointer is [NULL] or the start of
    a block; the program only ever indexes from the start of a block. *)
Abbreviation memory := (gmap positive (list real_type)).
Abbreviation devmem := memory.

Inductive ptr : Type :=
| NULL
| Ptr (b : positive).

Definition block_of (m : memory) (p : ptr) : option (list real_type) :=
  match p with
  | NULL => None
  | Ptr b => m !! b
  end.

Definition read (m : memory) (p : ptr) (i : Z) : option real_type :=
  buf ← block_of m p;
  if 0 <=? i then buf !! Z.to_nat i else None.

Definition write (m : memory) (p : ptr) (i : Z) (x : real_type) : option memory :=
  match p with
  | NULL => None
  | Ptr b =>
      buf ← m !! b;
      if (0 <=? i) && (i <? Z.of_nat (length buf))
      then Some (<[b := <[Z.to_nat i := x]> buf]> m)
      else None
  end.

Inductive access : Type :=
| Load (p : ptr) (i : Z)
| Store (p : ptr) (i : Z).

(** A lane runs against the device memory, logs each array access it makes and
    faults ([None]) on an access outside a block. *)
Definition kernel (A : Type) : Type :=
  devmem -> list access * option (A * devmem).

#[global] Instance kernel_ret : MRet kernel := fun A a m => ([], Some (a, m)).
#[global] Instance kernel_bind : MBind kernel := fun A B f k m =>
  match k m with
  | (t, Some (a, m')) => let '(t', r) := f a m' in (t ++ t', r)
  | (t, None) => (t, None)
  end.

Definition load (p : ptr) (i : Z) : kernel real_type := fun m =>
  ([Load p i], x ← read m p i; Some (x, m)).

Definition store (p : ptr) (i : Z) (x : real_type) : kernel unit := fun m =>
  ([Store p i], m' ← write m p i x; Some (tt, m')).

(** [unsigned] is 32 bits wide and [size_t] 64 bits wide. *)
Definition u32 (z : Z) : Z := z mod 2 ^ 32.
Definition u64 (z : Z) : Z := z mod 2 ^ 64.

(** One lane of the kernel, at the coordinates [blockDim.x], [blockIdx.x] and
    [threadIdx.x] the runtime gives it. *)
Definition thread_id_of (blockDim_x blockIdx_x threadIdx_x : Z) : Z :=
  u32 (u32 (blockDim_x * blockIdx_x) + threadIdx_x).

Definition vectorAddition (blockDim_x blockIdx_x threadIdx_x : Z)
    (a b c : ptr) (count : Z) : kernel unit :=
  let thread_id := thread_id_of blockDim_x blockIdx_x threadIdx_x in
  if thread_id <? count then
    x ← load a thread_id;
    y ← load b thread_id;
    store c thread_id (add x y)
  else mret tt.

(** *** The launch [kernel <<<blocks, threads>>> (...)] *)

(** The lanes of a one-dimensional grid, as pairs [(blockIdx.x, threadIdx.x)]. *)
Definition grid (blocks threads : Z) : list (Z * Z) :=
  bi ← seqZ 0 blocks; ti ← seqZ 0 threads; [(bi, ti)].

(** The device runs the lanes in an order of its own choosing, [sched].  A lane
    is one load of [a], one load of [b] and one store to [c]; lanes are taken
    here one after the other. *)
Fixpoint run_lanes (sched : list (Z * Z)) (blockDim_x : Z)
    (a b c : ptr) (count : Z) : kernel unit :=
  match sched with
  | [] => mret tt
  | (bi, ti) :: rest =>
      vectorAddition blockDim_x bi ti a b c count;;
      run_lanes rest blockDim_x a b c count
  end.

(** ** The host program *)

(** *** What the program does to the outside: library calls and output *)

Definition cudaError_t : Type := Z.
Definition cudaSuccess : cudaError_t := 0.
Definition cudaErrorInvalidValue : cudaError_t := 1.
Definition cudaErrorIllegalAddress : cudaError_t := 700.

Definition EXIT_SUCCESS : Z := 0.
Definition EXIT_FAILURE : Z := 1.

Inductive stream : Type := stdout | stderr.

Inductive cudaMemcpyKind : Type :=
| cudaMemcpyHostToDevice
| cudaMemcpyDeviceToHost.

(** An argument of a [printf]-style call, by conversion: [%zu], the [int]
    taken by the [*] of [%.*f], [%f] and [%s]. *)
Inductive arg : Type :=
| ArgSize (z : Z)
| ArgInt (z : Z)
| ArgReal (x : real_type)
| ArgStr (s : string).

Inductive event : Type :=
| Emalloc (bytes : Z) (p : ptr)
| Efree (p : ptr)
| EcudaMalloc (bytes : Z) (r : cudaError_t) (p : ptr)
| EcudaMemcpy (dst src : ptr) (bytes : Z) (k : cudaMemcpyKind) (r : cudaError_t)
| Elaunch (blocks threads : Z)
| EcudaDeviceSynchronize (r : cudaError_t)
| EcudaGetLastError (r : cudaError_t)
| EcudaFree (p : ptr) (r : cudaError_t)
| EisClose (x y rel_tol abs_tol : real_type) (r : bool)
| Efprintf (s : stream) (fmt : string) (args : list arg).

(** What the program cannot decide: the outcome of each library call, in the
    order of the calls in [main], the bits of memory that was never written,
    the order in which the device runs the lanes, libm's [sin] and [cos], the
    text of a device error and <float.h>'s [DECIMAL_DIG]. *)
Record Env : Type := {
  malloc_a : bool;
  malloc_b : bool;
  malloc_c : bool;
  cudaMalloc_a : cudaError_t;
  cudaMalloc_b : cudaError_t;
  cudaMalloc_c : cudaError_t;
  memcpy_a : cudaError_t;
  memcpy_b : cudaError_t;
  launched : cudaError_t;
  synchronized : cudaError_t;
  schedule : list (Z * Z) -> list (Z * Z);
  memcpy_c : cudaError_t;
  cudaFree_a : cudaError_t;
  cudaFree_b : cudaError_t;
  cudaFree_c : cudaError_t;
  uninit : positive -> nat -> real_type;
  sin : real_type -> real_type;
  cos : real_type -> real_type;
  cudaGetErrorString : cudaError_t -> string;
  DECIMAL_DIG : Z
}.

(** *** The state of a run and the monad of [main] *)

Record hstate : Type := {
  hmem : memory;
  dmem : devmem;
  next_block : positive;
  last_error : cudaError_t;
  events : list event
}.

Definition initial : hstate :=
  {| hmem := ∅; dmem := ∅; next_block := 1%positive;
     last_error := cudaSuccess; events := [] |}.

(** A statement goes on to the next one, or [main] returns a status, or the
    process is killed ([abort] from [assert], or a wild host access). *)
Inductive outcome (A : Type) : Type :=
| Next (a : A) (s : hstate)
| Return (status : Z) (s : hstate)
| Crash (s : hstate).
Arguments Next {A} a s.
Arguments Return {A} status s.
Arguments Crash {A} s.

Definition host (A : Type) : Type := hstate -> outcome A.

#[global] Instance host_ret : MRet host := fun A a s => Next a s.
#[global] Instance host_bind : MBind host := fun A B f k s =>
  match k s with
  | Next a s' => f a s'
  | Return status s' => Return status s'
  | Crash s' => Crash s'
  end.

Definition return_ {A : Type} (status : Z) : host A := fun s => Return status s.
Definition crash {A : Type} : host A := fun s => Crash s.

Definition add_events (s : hstate) (evs : list event) : hstate :=
  {| hmem := hmem s; dmem := dmem s; next_block := next_block s;
     last_error := last_error s; events := events s ++ evs |}.

Definition log (e : event) : host unit := fun s => Next tt (add_events s [e]).

Definition when (b : bool) (body : host unit) : host unit :=
  if b then body else mret tt.

(** [for (size_t i = 0; i < count; ++ i) body] is [for_ (seqZ 0 count) body]. *)
Fixpoint for_ (range : list Z) (body : Z -> host unit) : host unit :=
  match range with
  | [] => mret tt
  | i :: rest => body i;; for_ rest body
  end.

(** *** The C library and the CUDA runtime, as [main] uses them *)

Definition nl : string := String (Ascii.ascii_of_nat 10) EmptyString.

Definition sizeof_real_type : Z := 8.

Definition get {A : Type} (f : hstate -> A) : host A := fun s => Next (f s) s.

Definition set_hmem (m : memory) : host unit := fun s =>
  Next tt {| hmem := m; dmem := dmem s; next_block := next_block s;
             last_error := last_error s; events := events s |}.

Definition set_dmem (m : devmem) : host unit := fun s =>
  Next tt {| hmem := hmem s; dmem := m; next_block := next_block s;
             last_error := last_error s; events := events s |}.

Definition set_last_error (r : cudaError_t) : host unit := fun s =>
  Next tt {| hmem := hmem s; dmem := dmem s; next_block := next_block s;
             last_error := r; events := events s |}.

Definition new_block : host positive := fun s =>
  Next (next_block s)
       {| hmem := hmem s; dmem := dmem s; next_block := Pos.succ (next_block s);
          last_error := last_error s; events := events s |}.

(** A block of [bytes] bytes that was never written. *)
Definition uninitialized (env : Env) (b : positive) (bytes : Z) : list real_type :=
  uninit env b <$> seq 0 (Z.to_nat (bytes / sizeof_real_type)).

Definition is_null (p : ptr) : bool :=
  match p with NULL => true | Ptr _ => false end.

Definition malloc (env : Env) (ok : bool) (bytes : Z) : host ptr :=
  if ok then
    b ← new_block;
    m ← get hmem;
    set_hmem (<[b := uninitialized env b bytes]> m);;
    log (Emalloc bytes (Ptr b));;
    mret (Ptr b)
  else
    log (Emalloc bytes NULL);;
    mret NULL.

Definition free (p : ptr) : host unit :=
  m ← get hmem;
  match p with
  | NULL => mret tt
  | Ptr b => set_hmem (delete b m)
  end;;
  log (Efree p).

Definition fprintf (f : stream) (fmt : string) (args : list arg) : host unit :=
  log (Efprintf f fmt args).

Definition printf (fmt : string) (args : list arg) : host unit :=
  fprintf stdout fmt args.

(** [cudaMalloc ((void ** ) & p, bytes)]: the status, and the value of [p]
    afterwards. *)
Definition cudaMalloc (env : Env) (r : cudaError_t) (p : ptr) (bytes : Z)
    : host (cudaError_t * ptr) :=
  if r =? cudaSuccess then
    b ← new_block;
    m ← get dmem;
    set_dmem (<[b := uninitialized env b bytes]> m);;
    log (EcudaMalloc bytes r (Ptr b));;
    mret (r, Ptr b)
  else
    set_last_error r;;
    log (EcudaMalloc bytes r p);;
    mret (r, p).

(** The first [bytes] bytes of block [src] over the start of block [dst]. *)
Definition copy_block (from to : memory) (dst src : ptr) (bytes : Z)
    : option memory :=
  match dst with
  | NULL => None
  | Ptr d =>
      let n := Z.to_nat (bytes / sizeof_real_type) in
      sbuf ← block_of from src;
      dbuf ← to !! d;
      if (n <=? length sbuf)%nat && (n <=? length dbuf)%nat
      then Some (<[d := take n sbuf ++ drop n dbuf]> to)
      else None
  end.

Definition cudaMemcpy (r : cudaError_t) (dst src : ptr) (bytes : Z)
    (kind : cudaMemcpyKind) : host cudaError_t :=
  h ← get hmem;
  d ← get dmem;
  let copied :=
    if r =? cudaSuccess then
      match kind with
      | cudaMemcpyHostToDevice => copy_block h d dst src bytes ≫= fun d' => Some (h, d')
      | cudaMemcpyDeviceToHost => copy_block d h dst src bytes ≫= fun h' => Some (h', d)
      end
    else None in
  match copied with
  | Some (h', d') =>
      set_hmem h';; set_dmem d';;
      log (EcudaMemcpy dst src bytes kind cudaSuccess);;
      mret cudaSuccess
  | None =>
      let r' := if r =? cudaSuccess then cudaErrorInvalidValue else r in
      set_last_error r';;
      log (EcudaMemcpy dst src bytes kind r');;
      mret r'
  end.

Definition cudaGetLastError : host cudaError_t :=
  r ← get last_error;
  set_last_error cudaSuccess;;
  log (EcudaGetLastError r);;
  mret r.

(** [vectorAddition <<<blocks, threads>>> (a, b, c, count)]: a launch the
    runtime refuses runs no lane; a lane that faults is reported as an error
    of the launch. *)
Definition launch (env : Env) (blocks threads : Z) (a b c : ptr) (count : Z)
    : host unit :=
  log (Elaunch blocks threads);;
  if launched env =? cudaSuccess then
    d ← get dmem;
    match run_lanes (schedule env (grid blocks threads)) threads a b c count d with
    | (_, Some (_, d')) => set_dmem d'
    | (_, None) => set_last_error cudaErrorIllegalAddress
    end
  else set_last_error (launched env).

Definition cudaDeviceSynchronize (env : Env) : host cudaError_t :=
  let r := synchronized env in
  when (negb (r =? cudaSuccess)) (set_last_error r);;
  log (EcudaDeviceSynchronize r);;
  mret r.

Definition cudaFree (r : cudaError_t) (p : ptr) : host cudaError_t :=
  d ← get dmem;
  let r' :=
    if r =? cudaSuccess then
      match p with
      | NULL => cudaSuccess
      | Ptr b => if decide (is_Some (d !! b)) then cudaSuccess else cudaErrorInvalidValue
      end
    else r in
  (if r' =? cudaSuccess then
     match p with NULL => mret tt | Ptr b => set_dmem (delete b d) end
   else set_last_error r');;
  log (EcudaFree p r');;
  mret r'.

(** [p [i]] and [p [i] = x] on the host. *)
Definition hload (p : ptr) (i : Z) : host real_type :=
  m ← get hmem;
  match read m p i with
  | Some x => mret x
  | None => crash
  end.

Definition hstore (p : ptr) (i : Z) (x : real_type) : host unit :=
  m ← get hmem;
  match write m p i x with
  | Some m' => set_hmem m'
  | None => crash
  end.

Definition call_isClose (x y rel_tol abs_tol : real_type) : host bool :=
  match isClose x y rel_tol abs_tol with
  | Some r => log (EisClose x y rel_tol abs_tol r);; mret r
  | None => crash
  end.

(** The conversion of a [size_t] to [double]. *)
Definition real_of_size_t (i : Z) : real_type :=
  binary_normalize prec emax i 0 false.

(** *** [main] *)

(** The number of blocks of a launch (line 137): [size_t] arithmetic, the
    quotient then stored in an [unsigned]. *)
Definition blocks_for (count threads_per_block : Z) : Z :=
  u32 (u64 (u64 (count + threads_per_block) - 1) / threads_per_block).

Definition msg (text : string) : string := String.append text nl.

(** The loop that fills the inputs (lines 112-118). *)
Definition fill (env : Env) (count : Z) (host_a host_b : ptr) : host unit :=
  for_ (seqZ 0 count) (fun i =>
    hstore host_a i (mul (sin env (real_of_size_t i)) (sin env (real_of_size_t i)));;
    hstore host_b i (mul (cos env (real_of_size_t i)) (cos env (real_of_size_t i)))).

(** One turn of the loop that checks the result (lines 159-169). *)
Definition validate_at (env : Env) (host_a host_b host_c : ptr) (i : Z)
    : host unit :=
  x ← hload host_a i;
  y ← hload host_b i;
  let expected := add x y in
  actual ← hload host_c i;
  close ← call_isClose expected actual lit_1e_8 lit_1e_16;
  when (negb close) (
    fprintf stderr
      (msg "Test failed at element %zu: expected=%.*f;actual=%.*f;.")
      [ArgSize i; ArgInt (DECIMAL_DIG env); ArgReal expected;
       ArgInt (DECIMAL_DIG env); ArgReal actual];;
    return_ EXIT_FAILURE).

(** The loop that checks the result (lines 157-170). *)
Definition validate (env : Env) (count : Z) (host_a host_b host_c : ptr)
    : host unit :=
  for_ (seqZ 0 count) (validate_at env host_a host_b host_c).

Definition main (env : Env) : host Z :=
  let count := 65536 in
  let bytes := u64 (count * sizeof_real_type) in
  host_a ← malloc env (malloc_a env) bytes;
  when (is_null host_a) (
    fprintf stderr
      (msg "Error: couldn't allocate memory for host vector `a' (%zu bytes).")
      [ArgSize bytes];;
    return_ EXIT_FAILURE);;
  host_b ← malloc env (malloc_b env) bytes;
  when (is_null host_b) (
    fprintf stderr
      (msg "Error: couldn't allocate memory for host vector `b' (%zu bytes).")
      [ArgSize bytes];;
    return_ EXIT_FAILURE);;
  host_c ← malloc env (malloc_c env) bytes;
  when (is_null host_c) (
    fprintf stderr
      (msg "Error: couldn't allocate memory for host vector `c' (%zu bytes).")
      [ArgSize bytes];;
    return_ EXIT_FAILURE);;
  '(allocated, device_a) ← cudaMalloc env (cudaMalloc_a env) NULL bytes;
  when (negb (allocated =? cudaSuccess)) (
    fprintf stderr
      (msg "Error: couldn't allocate memory for device vector `a' (%zu bytes): %s.")
      [ArgSize bytes; ArgStr (cudaGetErrorString env allocated)];;
    return_ EXIT_FAILURE);;
  '(allocated, device_b) ← cudaMalloc env (cudaMalloc_b env) NULL bytes;
  when (negb (allocated =? cudaSuccess)) (
    fprintf stderr
      (msg "Error: couldn't allocate memory for device vector `b' (%zu bytes): %s.")
      [ArgSize bytes; ArgStr (cudaGetErrorString env allocated)];;
    return_ EXIT_FAILURE);;
  '(allocated, device_c) ← cudaMalloc env (cudaMalloc_c env) NULL bytes;
  when (negb (allocated =? cudaSuccess)) (
    fprintf stderr
      (msg "Error: couldn't allocate memory for device vector `c' (%zu bytes): %s.")
      [ArgSize bytes; ArgStr (cudaGetErrorString env allocated)];;
    return_ EXIT_FAILURE);;
  fill env count host_a host_b;;
  copied ← cudaMemcpy (memcpy_a env) device_a host_a bytes cudaMemcpyHostToDevice;
  when (negb (copied =? cudaSuccess)) (
    fprintf stderr
      (msg "Error: couldn't copy host vector `a' to device: %s.")
      [ArgStr (cudaGetErrorString env copied)];;
    return_ EXIT_FAILURE);;
  copied ← cudaMemcpy (memcpy_b env) device_b host_b bytes cudaMemcpyHostToDevice;
  when (negb (copied =? cudaSuccess)) (
    fprintf stderr
      (msg "Error: couldn't copy host vector `b' to device: %s.")
      [ArgStr (cudaGetErrorString env copied)];;
    return_ EXIT_FAILURE);;
  let threads_per_block := 256 in
  let blocks_per_grid := blocks_for count threads_per_block in
  cudaGetLastError;;
  launch env blocks_per_grid threads_per_block device_a device_b device_c count;;
  cudaDeviceSynchronize env;;
  added ← cudaGetLastError;
  when (negb (added =? cudaSuccess)) (
    fprintf stderr
      (msg "Error: couldn't launch kernel: %s.")
      [ArgStr (cudaGetErrorString env added)];;
    return_ EXIT_FAILURE);;
  copied ← cudaMemcpy (memcpy_c env) host_c device_c bytes cudaMemcpyDeviceToHost;
  when (negb (copied =? cudaSuccess)) (
    fprintf stderr
      (msg "Error: couldn't copy vector `c' to host: %s.")
      [ArgStr (cudaGetErrorString env copied)];;
    return_ EXIT_FAILURE);;
  validate env count host_a host_b host_c;;
  freed ← cudaFree (cudaFree_a env) device_a;
  when (negb (freed =? cudaSuccess)) (
    fprintf stderr
      (msg "Error: couldn't free device vector `a': %s.")
      [ArgStr (cudaGetErrorString env freed)];;
    return_ EXIT_FAILURE);;
  freed ← cudaFree (cudaFree_b env) device_b;
  when (negb (freed =? cudaSuccess)) (
    fprintf stderr
      (msg "Error: couldn't free device vector `b': %s.")
      [ArgStr (cudaGetErrorString env freed)];;
    return_ EXIT_FAILURE);;
  freed ← cudaFree (cudaFree_c env) device_c;
  when (negb (freed =? cudaSuccess)) (
    fprintf stderr
      (msg "Error: couldn't free device vector `c': %s.")
      [ArgStr (cudaGetErrorString env freed)];;
    return_ EXIT_FAILURE);;
  free host_a;;
  free host_b;;
  free host_c;;
  printf (msg "Done.") [];;
  return_ EXIT_SUCCESS.

(** What a finished run leaves on a stream: the [printf] calls, in order. *)
Definition written (f : stream) (t : list event) : list (string * list arg) :=
  omap (fun e =>
    match e, f with
    | Efprintf stdout fmt args, stdout => Some (fmt, args)
    | Efprintf stderr fmt args, stderr => Some (fmt, args)
    | _, _ => None
    end) t.

(** ** Vocabulary of the statements *)

Definition access_ptr (x : access) : ptr :=
  match x with Load p _ | Store p _ => p end.

Definition access_index (x : access) : Z :=
  match x with Load _ i | Store _ i => i end.

Definition is_store (x : access) : bool :=
  match x with Store _ _ => true | Load _ _ => false end.

(** An access that falls inside an allocated block. *)
Definition in_bounds (m : memory) (x : access) : Prop :=
  exists buf, block_of m (access_ptr x) = Some buf
              /\ 0 <= access_index x < Z.of_nat (length buf).

(** The global index of a lane [(blockIdx.x, threadIdx.x)] of a grid. *)
Definition lane_index (blockDim_x : Z) (lane : Z * Z) : Z :=
  thread_id_of blockDim_x lane.1 lane.2.

#[global] Instance real_type_inhabited : Inhabited real_type := populate nan.

(** What the loop of [validate] compares at index [i], the host arrays being
    [abuf], [bbuf] and [cbuf]. *)
Definition expected_at (abuf bbuf : list real_type) (i : Z) : real_type :=
  add (abuf !!! Z.to_nat i) (bbuf !!! Z.to_nat i).

Definition actual_at (cbuf : list real_type) (i : Z) : real_type :=
  cbuf !!! Z.to_nat i.

Definition close_at (abuf bbuf cbuf : list real_type) (i : Z) : option bool :=
  isClose (expected_at abuf bbuf i) (actual_at cbuf i) lit_1e_8 lit_1e_16.

(** The calls of [isClose] that answered true, over a range of indices. *)
Definition checked (abuf bbuf cbuf : list real_type) (range : list Z)
    : list event :=
  (fun i => EisClose (expected_at abuf bbuf i) (actual_at cbuf i)
                     lit_1e_8 lit_1e_16 true) <$> range.

(** The call of [isClose] that answered false at index [k], and the report. *)
Definition report (env : Env) (abuf bbuf cbuf : list real_type) (k : Z)
    : list event :=
  [EisClose (expected_at abuf bbuf k) (actual_at cbuf k) lit_1e_8 lit_1e_16 false;
   Efprintf stderr
     (msg "Test failed at element %zu: expected=%.*f;actual=%.*f;.")
     [ArgSize k; ArgInt (DECIMAL_DIG env); ArgReal (expected_at abuf bbuf k);
      ArgInt (DECIMAL_DIG env); ArgReal (actual_at cbuf k)]].

(** A small device memory: two inputs of two elements and an output. *)
Definition demo_mem : devmem :=
  <[3%positive := [zero; zero]]>
    (<[2%positive := [one; one]]> (<[1%positive := [one; zero]]> ∅)).

(** A device memory with three blocks of 65536 elements. *)
Definition full_mem : devmem :=
  <[3%positive := replicate (Z.to_nat 65536) zero]>
    (<[2%positive := replicate (Z.to_nat 65536) one]>
       (<[1%positive := replicate (Z.to_nat 65536) one]> ∅)).

(** An environment in which every call succeeds, and a host memory with
    three arrays of two elements of which the last disagrees. *)
Definition demo_env : Env :=
  {| malloc_a := true; malloc_b := true; malloc_c := true;
     cudaMalloc_a := cudaSuccess; cudaMalloc_b := cudaSuccess;
     cudaMalloc_c := cudaSuccess;
     memcpy_a := cudaSuccess; memcpy_b := cudaSuccess;
     launched := cudaSuccess; synchronized := cudaSuccess;
     schedule := fun lanes => lanes;
     memcpy_c := cudaSuccess;
     cudaFree_a := cudaSuccess; cudaFree_b := cudaSuccess;
     cudaFree_c := cudaSuccess;
     uninit := fun _ _ => nan;
     sin := fun x => x; cos := fun x => x;
     cudaGetErrorString := fun _ => "out of memory"%string;
     DECIMAL_DIG := 21 |}.

(** The same, but the second device allocation fails. *)
Definition env_no_device_b : Env :=
  {| malloc_a := true; malloc_b := true; malloc_c := true;
     cudaMalloc_a := cudaSuccess; cudaMalloc_b := 2;
     cudaMalloc_c := cudaSuccess;
     memcpy_a := cudaSuccess; memcpy_b := cudaSuccess;
     launched := cudaSuccess; synchronized := cudaSuccess;
     schedule := fun lanes => lanes;
     memcpy_c := cudaSuccess;
     cudaFree_a := cudaSuccess; cudaFree_b := cudaSuccess;
     cudaFree_c := cudaSuccess;
     uninit := fun _ _ => nan;
     sin := fun x => x; cos := fun x => x;
     cudaGetErrorString := fun _ => "out of memory"%string;
     DECIMAL_DIG := 21 |}.

(** The run in which the second device allocation fails. *)
Definition trace_no_device_b (env : Env) : list event :=
  [Emalloc 524288 (Ptr 1); Emalloc 524288 (Ptr 2); Emalloc 524288 (Ptr 3);
   EcudaMalloc 524288 cudaSuccess (Ptr 4);
   EcudaMalloc 524288 (cudaMalloc_b env) NULL;
   Efprintf stderr
     (msg "Error: couldn't allocate memory for device vector `b' (%zu bytes): %s.")
     [ArgSize 524288; ArgStr (cudaGetErrorString env (cudaMalloc_b env))]].

Definition demo_host : hstate :=
  {| hmem := <[3%positive := [one; zero]]>
               (<[2%positive := [zero; one]]> (<[1%positive := [one; zero]]> ∅));
     dmem := ∅; next_block := 4%positive;
     last_error := cudaSuccess; events := [] |}.

(** What [k] steps of [shr_1] leave of [m]: the quotient by [2 ^ k], and where
    the remainder lies with respect to the half. *)
Definition shifted (m k : Z) (mrs : shr_record) : Prop :=
  0 <= shr_m mrs
  /\ exists rem,
       m = shr_m mrs * 2 ^ k + rem /\ 0 <= rem < 2 ^ k
       /\ shr_r mrs = (2 ^ k <=? 2 * rem)
       /\ shr_s mrs = negb (rem =? 0) && negb (2 * rem =? 2 ^ k).

(** Rounding [m / 2 ^ k] to the nearest integer, ties to even. *)
Definition rne (m k : Z) : Z :=
  let q := m / 2 ^ k in
  let rem := m mod 2 ^ k in
  if (2 ^ k <? 2 * rem) || ((2 ^ k =? 2 * rem) && Z.odd q) then q + 1 else q.

(** The finite double [q * 2 ^ E], or the infinity when [E] is too large. *)
Definition out (q E : Z) : real_type :=
  if E <=? emax - prec then S754_finite false (Z.to_pos q) E
  else S754_infinity false.

(** The double of the rounded significand [q] at the exponent [E]: a
    significand of 54 bits is [2 ^ 53], and goes to the next exponent. *)
Definition pack (q E : Z) : real_type :=
  if q =? 0 then S754_zero false
  else if 2 ^ 53 <=? q then out (2 ^ 52) (E + 1)
  else out q E.

(** A finite double that is not negative: what [fabs] makes of a finite
    double. *)
Definition nonneg_finite (u : real_type) : bool :=
  match u with
  | S754_zero _ | S754_finite false _ _ => true
  | _ => false
  end.

(** [fmax] of <math.h>: the larger argument, and the other one when one is a
    NaN. *)
Definition fmax (u v : real_type) : real_type :=
  match u, v with
  | S754_nan, _ => v
  | _, S754_nan => u
  | _, _ => if ltb u v then v else u
  end.

Definition is_nan (x : real_type) : bool :=
  match x with S754_nan => true | _ => false end.

(** The lengths of the blocks of a memory. *)
Definition shape (m : memory) : gmap positive nat := length <$> m.

(** The calls whose failure [main] tests for, when they fail.  (The last
    error is read twice; [main] drops the first reading, which is
    [cudaSuccess] as no call has failed before it.) *)
Definition failed (e : event) : bool :=
  match e with
  | Emalloc _ p => is_null p
  | EcudaMalloc _ r _ | EcudaMemcpy _ _ _ _ r | EcudaGetLastError r
  | EcudaFree _ r => negb (r =? cudaSuccess)
  | EisClose _ _ _ _ r => negb r
  | _ => false
  end.

(** The failures that come after the first device allocation and before the
    first release: a device allocation, a transfer, the kernel, the
    validation. *)
Definition failed_before_release (e : event) : bool :=
  match e with
  | EcudaMalloc _ r _ | EcudaMemcpy _ _ _ _ r | EcudaGetLastError r =>
      negb (r =? cudaSuccess)
  | EisClose _ _ _ _ r => negb r
  | _ => false
  end.

Definition allocated_on_device (e : event) : bool :=
  match e with
  | EcudaMalloc _ r (Ptr _) => r =? cudaSuccess
  | _ => false
  end.

Definition is_release (e : event) : bool :=
  match e with
  | EcudaFree _ _ | Efree _ => true
  | _ => false
  end.

Definition is_output (e : event) : bool :=
  match e with
  | Efprintf _ _ _ => true
  | _ => false
  end.

Definition is_launch (e : event) : bool :=
  match e with
  | Elaunch _ _ => true
  | _ => false
  end.

(** A text that is one line: a newline at its end and nowhere else. *)
Fixpoint is_line (text : string) : bool :=
  match text with
  | EmptyString => false
  | String ch EmptyString => Ascii.eqb ch (Ascii.ascii_of_nat 10)
  | String ch rest => negb (Ascii.eqb ch (Ascii.ascii_of_nat 10)) && is_line rest
  end.

(** An event that is neither a failure nor an output. *)
Definition quiet (e : event) : bool := negb (failed e) && negb (is_output e).

(** The two shapes of a finished run: calls that succeed and print nothing,
    then either a call that fails and one line on [stderr], or the line on
    [stdout]; nothing is released before a failure that is not itself the
    failure of a release. *)
Inductive run_shape : list event -> Z -> Prop :=
| run_failure (pre : list event) (e : event) (fmt : string) (args : list arg) :
    forallb quiet pre = true -> failed e = true -> is_line fmt = true ->
    (failed_before_release e = true ->
     forallb (fun x => negb (is_release x)) pre = true) ->
    run_shape ((pre ++ [e]) ++ [Efprintf stderr fmt args]) EXIT_FAILURE
| run_success (pre : list event) :
    forallb quiet pre = true ->
    run_shape (pre ++ [Efprintf stdout (msg "Done.") []]) EXIT_SUCCESS.

(** [mentions needle text]: [needle] occurs in [text]. *)
Definition mentions (needle text : string) : bool :=
  match String.index 0 needle text with
  | Some _ => true
  | None => false
  end.

(** The weakest precondition of a piece of [main]: it does not crash, ends in
    [Q] when it goes on and in [R] when it makes [main] return. *)
Definition wp {A : Type} (k : host A) (s : hstate)
    (Q : A -> hstate -> Prop) (R : Z -> hstate -> Prop) : Prop :=
  match k s with
  | Next a s' => Q a s'
  | Return status s' => R status s'
  | Crash _ => False
  end.

(** The calls of a run of [main] in which nothing fails, in order: those
    before the validation, the comparisons (the host arrays being [A], [B]
    and [C]), and the releases. *)
Definition calls_before_validation (env : Env) : list event :=
  [Emalloc 524288 (Ptr 1); Emalloc 524288 (Ptr 2); Emalloc 524288 (Ptr 3);
   EcudaMalloc 524288 cudaSuccess (Ptr 4);
   EcudaMalloc 524288 cudaSuccess (Ptr 5);
   EcudaMalloc 524288 cudaSuccess (Ptr 6);
   EcudaMemcpy (Ptr 4) (Ptr 1) 524288 cudaMemcpyHostToDevice cudaSuccess;
   EcudaMemcpy (Ptr 5) (Ptr 2) 524288 cudaMemcpyHostToDevice cudaSuccess;
   EcudaGetLastError cudaSuccess;
   Elaunch 256 256;
   EcudaDeviceSynchronize (synchronized env);
   EcudaGetLastError cudaSuccess;
   EcudaMemcpy (Ptr 3) (Ptr 6) 524288 cudaMemcpyDeviceToHost cudaSuccess].

Definition releases : list event :=
  [EcudaFree (Ptr 4) cudaSuccess; EcudaFree (Ptr 5) cudaSuccess;
   EcudaFree (Ptr 6) cudaSuccess;
   Efree (Ptr 1); Efree (Ptr 2); Efree (Ptr 3)].

Definition success_calls (env : Env) (A B C : list real_type) : list event :=
  calls_before_validation env ++ checked A B C (seqZ 0 65536) ++ releases.




(** The inputs [main] computes (lines 116-117), and their sums. *)
Definition input_a (env : Env) (i : Z) : real_type :=
  mul (sin env (real_of_size_t i)) (sin env (real_of_size_t i)).

Definition input_b (env : Env) (i : Z) : real_type :=
  mul (cos env (real_of_size_t i)) (cos env (real_of_size_t i)).

Definition sum_at (env : Env) (i : Z) : real_type :=
  add (input_a env i) (input_b env i).

Definition inputs_a (env : Env) : list real_type := input_a env <$> seqZ 0 65536.
Definition inputs_b (env : Env) : list real_type := input_b env <$> seqZ 0 65536.
Definition sums (env : Env) : list real_type := sum_at env <$> seqZ 0 65536.

(** What the stores [buf [i] = f (i)], for [i] over [range], leave of [buf]. *)
Definition stored (f : Z -> real_type) (buf : list real_type) (range : list Z)
    : list real_type :=
  foldl (fun buf i => <[Z.to_nat i := f i]> buf) buf range.

(** A C library and a device that do their part: no call fails, and the
    device runs every lane of the grid once, in an order of its choosing. *)
Record works (env : Env) : Prop := {
  works_malloc_a : malloc_a env = true;
  works_malloc_b : malloc_b env = true;
  works_malloc_c : malloc_c env = true;
  works_cudaMalloc_a : cudaMalloc_a env = cudaSuccess;
  works_cudaMalloc_b : cudaMalloc_b env = cudaSuccess;
  works_cudaMalloc_c : cudaMalloc_c env = cudaSuccess;
  works_memcpy_a : memcpy_a env = cudaSuccess;
  works_memcpy_b : memcpy_b env = cudaSuccess;
  works_launched : launched env = cudaSuccess;
  works_synchronized : synchronized env = cudaSuccess;
  works_schedule : schedule env (grid 256 256) ≡ₚ grid 256 256;
  works_memcpy_c : memcpy_c env = cudaSuccess;
  works_cudaFree_a : cudaFree_a env = cudaSuccess;
  works_cudaFree_b : cudaFree_b env = cudaSuccess;
  works_cudaFree_c : cudaFree_c env = cudaSuccess
}.

(** How a run on such a device ends: in the line [Done.] with everything
    released when no sum is a NaN, and else in the report of the first
    index at which the sum is a NaN. *)
Definition ends_with (env : Env) (status : Z) (s : hstate) : Prop :=
  ((forall i, 0 <= i < 65536 -> is_nan (sum_at env i) = false)
   /\ status = EXIT_SUCCESS
   /\ events s
      = success_calls env (inputs_a env) (inputs_b env) (sums env)
        ++ [Efprintf stdout (msg "Done.") []]
   /\ hmem s = ∅ /\ dmem s = ∅)
  \/ (exists k,
        0 <= k < 65536 /\ is_nan (sum_at env k) = true
        /\ (forall i, 0 <= i < k -> is_nan (sum_at env i) = false)
        /\ status = EXIT_FAILURE
        /\ events s
           = calls_before_validation env
             ++ checked (inputs_a env) (inputs_b env) (sums env) (seqZ 0 k)
             ++ report env (inputs_a env) (inputs_b env) (sums env) k).

(** An environment in which every call succeeds, and whose [sin] and [cos]
    are the constants 0 and 1. *)
Definition unit_env : Env :=
  {| malloc_a := true; malloc_b := true; malloc_c := true;
     cudaMalloc_a := cudaSuccess; cudaMalloc_b := cudaSuccess;
     cudaMalloc_c := cudaSuccess;
     memcpy_a := cudaSuccess; memcpy_b := cudaSuccess;
     launched := cudaSuccess; synchronized := cudaSuccess;
     schedule := fun lanes => lanes;
     memcpy_c := cudaSuccess;
     cudaFree_a := cudaSuccess; cudaFree_b := cudaSuccess;
     cudaFree_c := cudaSuccess;
     uninit := fun _ _ => nan;
     sin := fun _ => zero; cos := fun _ => one;
     cudaGetErrorString := fun _ => "no error"%string;
     DECIMAL_DIG := 21 |}.

(** The same, with a [sin] that returns a NaN. *)
Definition nan_env : Env :=
  {| malloc_a := true; malloc_b := true; malloc_c := true;
     cudaMalloc_a := cudaSuccess; cudaMalloc_b := cudaSuccess;
     cudaMalloc_c := cudaSuccess;
     memcpy_a := cudaSuccess; memcpy_b := cudaSuccess;
     launched := cudaSuccess; synchronized := cudaSuccess;
     schedule := fun lanes => lanes;
     memcpy_c := cudaSuccess;
     cudaFree_a := cudaSuccess; cudaFree_b := cudaSuccess;
     cudaFree_c := cudaSuccess;
     uninit := fun _ _ => nan;
     sin := fun _ => nan; cos := fun _ => one;
     cudaGetErrorString := fun _ => "no error"%string;
     DECIMAL_DIG := 21 |}.


(** * Properties *)

(** ** The tolerance comparator *)

Example isClose_one_one : isClose one one lit_1e_8 lit_1e_16 = Some true.
Proof. reflexivity. Qed.

Example isClose_assert : isClose one one (SFopp one) lit_1e_16 = None.
Proof. reflexivity. Qed.

Lemma eqb_sym (x y : real_type) : eqb x y = eqb y x.
Proof.
  unfold eqb, SFeqb.
  destruct x as [sx | sx | | sx mx ex], y as [sy | sy | | sy my ey];
    try destruct sx; try destruct sy; try reflexivity; simpl;
    rewrite (Z.compare_antisym ex ey); destruct (ex ?= ey); simpl;
    try reflexivity;
    change (Pos.compare_cont Eq my mx) with (my ?= mx)%positive;
    change (Pos.compare_cont Eq mx my) with (mx ?= my)%positive;
    rewrite (Pos.compare_antisym mx my); destruct (mx ?= my)%positive;
    reflexivity.
Qed.

(** Rounding to nearest even does not look at the sign. *)
Lemma fabs_binary_round_aux (s s' : bool) (m e : Z) (l : location) :
  SFabs (binary_round_aux prec emax s m e l)
  = SFabs (binary_round_aux prec emax s' m e l).
Proof.
  unfold binary_round_aux.
  destruct (shr_fexp prec emax m e l) as [mrs' e'].
  destruct (shr_fexp prec emax _ e' loc_Exact) as [mrs'' e''].
  destruct (shr_m mrs''); try reflexivity.
  destruct (e'' <=? emax - prec); reflexivity.
Qed.

Lemma fabs_binary_normalize_opp (z e : Z) (sz : bool) :
  SFabs (binary_normalize prec emax (- z) e sz)
  = SFabs (binary_normalize prec emax z e sz).
Proof.
  destruct z as [| p | p]; simpl; try reflexivity; unfold binary_round;
    destruct (shl_align p e _) as [mz ez]; apply fabs_binary_round_aux.
Qed.

Lemma fabs_sub_sym (x y : real_type) : fabs (sub x y) = fabs (sub y x).
Proof.
  unfold fabs, sub.
  destruct x as [sx | sx | | sx mx ex], y as [sy | sy | | sy my ey];
    try (destruct sx, sy; reflexivity); try reflexivity.
  unfold SFsub. rewrite (Z.min_comm ey ex).
  rewrite <- fabs_binary_normalize_opp. f_equal. f_equal. lia.
Qed.

(** C9: [isClose] gives the same answer when its first two arguments are
    exchanged, whatever the four doubles are (the assertions on the
    tolerances do not look at them). *)
Theorem isClose_sym (x y rel_tol abs_tol : real_type) :
  isClose x y rel_tol abs_tol = isClose y x rel_tol abs_tol.
Proof.
  unfold isClose.
  destruct (negb (geb rel_tol zero)); [reflexivity |].
  destruct (negb (geb abs_tol zero)); [reflexivity |].
  rewrite (andb_comm (isfinite y)), (eqb_sym y x), (fabs_sub_sym y x).
  destruct (isfinite x && isfinite y); [| reflexivity].
  destruct (eqb x y); [reflexivity |].
  f_equal. set (d := fabs (sub x y)).
  destruct (leb d abs_tol), (leb d (mul rel_tol (fabs x))),
    (leb d (mul rel_tol (fabs y))); reflexivity.
Qed.

(** ** Rounding to nearest even, arithmetically *)

Lemma digits2_pos_bounds (m : positive) :
  2 ^ (Zpos (digits2_pos m) - 1) <= Zpos m < 2 ^ Zpos (digits2_pos m).
Proof.
  induction m as [p IH | p IH |]; simpl digits2_pos.
  - rewrite Pos2Z.inj_succ.
    replace (Z.succ (Zpos (digits2_pos p)) - 1) with (Z.succ (Zpos (digits2_pos p) - 1)) by lia.
    rewrite !Z.pow_succ_r by lia. lia.
  - rewrite Pos2Z.inj_succ.
    replace (Z.succ (Zpos (digits2_pos p)) - 1) with (Z.succ (Zpos (digits2_pos p) - 1)) by lia.
    rewrite !Z.pow_succ_r by lia. lia.
  - simpl. lia.
Qed.

Lemma shifted_0 (m : Z) : 0 <= m -> shifted m 0 (Build_shr_record m false false).
Proof.
  intros Hm. split; [exact Hm |]. exists 0. simpl. repeat split; lia.
Qed.

Lemma shifted_shr_1 (m k : Z) (mrs : shr_record) :
  0 <= k -> shifted m k mrs -> shifted m (k + 1) (shr_1 mrs).
Proof.
  intros Hk (Hq & rem & Hm & Hrem & Hr & Hs).
  destruct mrs as [q r s]. cbn [shr_m shr_r shr_s] in *.
  assert (Hpow : 2 ^ (k + 1) = 2 * 2 ^ k) by (rewrite Z.pow_add_r by lia; lia).
  assert (Hpos : 0 < 2 ^ k) by (apply Z.pow_pos_nonneg; lia).
  assert (Hsticky : r || s = negb (rem =? 0)).
  { rewrite Hr, Hs.
    destruct (Z.leb_spec (2 ^ k) (2 * rem)), (Z.eqb_spec rem 0),
      (Z.eqb_spec (2 * rem) (2 ^ k)); cbn [negb andb orb]; try reflexivity; lia. }
  destruct q as [| [p | p |] | p]; try lia; unfold shifted;
    cbn [shr_1 shr_m shr_r shr_s]; (split; [lia |]).
  - exists rem. rewrite Hpow, Hsticky.
    split; [lia |]. split; [lia |].
    split.
    + destruct (Z.leb_spec (2 * 2 ^ k) (2 * rem)); [lia | reflexivity].
    + destruct (Z.eqb_spec rem 0), (Z.eqb_spec (2 * rem) (2 * 2 ^ k));
        cbn [negb andb orb]; try reflexivity; lia.
  - exists (rem + 2 ^ k). rewrite Hpow, Hsticky.
    split; [lia |]. split; [lia |].
    split.
    + destruct (Z.leb_spec (2 * 2 ^ k) (2 * (rem + 2 ^ k))); [reflexivity | lia].
    + destruct (Z.eqb_spec rem 0), (Z.eqb_spec (rem + 2 ^ k) 0),
        (Z.eqb_spec (2 * (rem + 2 ^ k)) (2 * 2 ^ k));
        cbn [negb andb orb]; try reflexivity; lia.
  - exists rem. rewrite Hpow, Hsticky.
    split; [lia |]. split; [lia |].
    split.
    + destruct (Z.leb_spec (2 * 2 ^ k) (2 * rem)); [lia | reflexivity].
    + destruct (Z.eqb_spec rem 0), (Z.eqb_spec (2 * rem) (2 * 2 ^ k));
        cbn [negb andb orb]; try reflexivity; lia.
  - exists (rem + 2 ^ k). rewrite Hpow, Hsticky.
    split; [lia |]. split; [lia |].
    split.
    + destruct (Z.leb_spec (2 * 2 ^ k) (2 * (rem + 2 ^ k))); [reflexivity | lia].
    + destruct (Z.eqb_spec rem 0), (Z.eqb_spec (rem + 2 ^ k) 0),
        (Z.eqb_spec (2 * (rem + 2 ^ k)) (2 * 2 ^ k));
        cbn [negb andb orb]; try reflexivity; lia.
Qed.

Lemma shifted_iter (m : Z) (p : positive) :
  forall (k : Z) (mrs : shr_record),
  0 <= k -> shifted m k mrs -> shifted m (k + Zpos p) (SpecFloat.iter_pos shr_1 p mrs).
Proof.
  induction p as [p IH | p IH |]; intros k mrs Hk H; simpl.
  - replace (k + Zpos p~1) with (((k + 1) + Zpos p) + Zpos p) by lia.
    apply IH; [lia |]. apply IH; [lia |]. apply shifted_shr_1; assumption.
  - replace (k + Zpos p~0) with ((k + Zpos p) + Zpos p) by lia.
    apply IH; [lia |]. apply IH; assumption.
  - apply shifted_shr_1; assumption.
Qed.

Lemma round_shifted (m k : Z) (mrs : shr_record) :
  0 <= k -> shifted m k mrs ->
  round_nearest_even (shr_m mrs) (loc_of_shr_record mrs) = rne m k.
Proof.
  intros Hk (Hq & rem & Hm & Hrem & Hr & Hs).
  assert (Hpos : 0 < 2 ^ k) by (apply Z.pow_pos_nonneg; lia).
  assert (Hdiv : m / 2 ^ k = shr_m mrs).
  { symmetry. apply (Z.div_unique_pos m (2 ^ k) (shr_m mrs) rem); lia. }
  assert (Hmod : m mod 2 ^ k = rem).
  { symmetry. apply (Z.mod_unique_pos m (2 ^ k) (shr_m mrs) rem); lia. }
  unfold rne. cbv zeta. rewrite Hdiv, Hmod.
  destruct mrs as [q r s]. cbn [shr_m shr_r shr_s] in *. subst r s.
  rewrite <- Z.negb_even.
  destruct (Z.leb_spec (2 ^ k) (2 * rem)), (Z.eqb_spec rem 0),
    (Z.eqb_spec (2 * rem) (2 ^ k)), (Z.ltb_spec (2 ^ k) (2 * rem)),
    (Z.eqb_spec (2 ^ k) (2 * rem));
    cbn [negb andb orb loc_of_shr_record round_nearest_even]; try lia;
    try reflexivity; destruct (Z.even q); reflexivity.
Qed.

Lemma round_shr (m e k : Z) :
  0 <= m -> 0 <= k ->
  let '(mrs, e') := shr (Build_shr_record m false false) e k in
  round_nearest_even (shr_m mrs) (loc_of_shr_record mrs) = rne m k
  /\ e' = e + k.
Proof.
  intros Hm Hk. destruct k as [| p | p]; [| | lia]; cbn [shr].
  - split; [| lia]. apply round_shifted; [lia | apply shifted_0; exact Hm].
  - split; [| reflexivity]. apply round_shifted; [lia |].
    apply (shifted_iter m p 0); [lia | apply shifted_0; exact Hm].
Qed.

Lemma rne_bounds (m k : Z) :
  0 <= m -> 0 <= k -> m / 2 ^ k <= rne m k <= m / 2 ^ k + 1.
Proof.
  intros Hm Hk. unfold rne. cbv zeta.
  destruct ((2 ^ k <? 2 * (m mod 2 ^ k)) || _); lia.
Qed.

Lemma rne_mono (m1 m2 k : Z) :
  0 <= m1 <= m2 -> 0 <= k -> rne m1 k <= rne m2 k.
Proof.
  intros Hm Hk.
  assert (Hpos : 0 < 2 ^ k) by (apply Z.pow_pos_nonneg; lia).
  pose proof (Z.div_le_mono m1 m2 (2 ^ k) Hpos ltac:(lia)) as Hq.
  pose proof (rne_bounds m1 k ltac:(lia) Hk) as B1.
  pose proof (rne_bounds m2 k ltac:(lia) Hk) as B2.
  destruct (Z.eq_dec (m1 / 2 ^ k) (m2 / 2 ^ k)) as [Heq | Hne]; [| lia].
  pose proof (Z.div_mod m1 (2 ^ k) ltac:(lia)) as D1.
  pose proof (Z.div_mod m2 (2 ^ k) ltac:(lia)) as D2.
  assert (Hrem : m1 mod 2 ^ k <= m2 mod 2 ^ k) by (rewrite Heq in D1; lia).
  unfold rne. cbv zeta. rewrite Heq.
  destruct (Z.ltb_spec (2 ^ k) (2 * (m1 mod 2 ^ k))),
    (Z.ltb_spec (2 ^ k) (2 * (m2 mod 2 ^ k))),
    (Z.eqb_spec (2 ^ k) (2 * (m1 mod 2 ^ k))),
    (Z.eqb_spec (2 ^ k) (2 * (m2 mod 2 ^ k)));
    cbn [andb orb]; try lia; destruct (Z.odd (m2 / 2 ^ k)); cbn [andb orb]; lia.
Qed.

Lemma rne_scale (m k j : Z) :
  0 <= m -> 0 <= k -> 0 <= j -> rne (m * 2 ^ j) (k + j) = rne m k.
Proof.
  intros Hm Hk Hj.
  assert (Hk' : 0 < 2 ^ k) by (apply Z.pow_pos_nonneg; lia).
  assert (Hj' : 0 < 2 ^ j) by (apply Z.pow_pos_nonneg; lia).
  unfold rne. cbv zeta. rewrite Z.pow_add_r by lia.
  rewrite Z.div_mul_cancel_r by lia.
  rewrite Z.mul_mod_distr_r by lia.
  pose proof (Z.mod_pos_bound m (2 ^ k) Hk') as Hrem.
  replace (2 ^ k * 2 ^ j <? 2 * (m mod 2 ^ k * 2 ^ j))
    with (2 ^ k <? 2 * (m mod 2 ^ k)).
  2: { destruct (Z.ltb_spec (2 ^ k) (2 * (m mod 2 ^ k))),
         (Z.ltb_spec (2 ^ k * 2 ^ j) (2 * (m mod 2 ^ k * 2 ^ j)));
         try reflexivity; nia. }
  replace (2 ^ k * 2 ^ j =? 2 * (m mod 2 ^ k * 2 ^ j))
    with (2 ^ k =? 2 * (m mod 2 ^ k)).
  2: { destruct (Z.eqb_spec (2 ^ k) (2 * (m mod 2 ^ k))),
         (Z.eqb_spec (2 ^ k * 2 ^ j) (2 * (m mod 2 ^ k * 2 ^ j)));
         try reflexivity; nia. }
  reflexivity.
Qed.

(** ** What [binary_round_aux] returns on a positive number *)

Lemma shr_nonpos (mrs : shr_record) (e n : Z) : n <= 0 -> shr mrs e n = (mrs, e).
Proof. intros Hn. destruct n; [reflexivity | lia | reflexivity]. Qed.

Lemma fexp_eq (e : Z) : fexp prec emax e = Z.max (e - 53) (-1074).
Proof. reflexivity. Qed.

Lemma binary_round_aux_pos (m : positive) (e : Z) :
  let E := fexp prec emax (Zpos (digits2_pos m) + e) in
  let q := rne (Zpos m) (E - e) in
  e <= E ->
  binary_round_aux prec emax false (Zpos m) e loc_Exact = pack q E
  /\ 0 <= q <= 2 ^ 53
  /\ (-1074 < E -> 2 ^ 52 <= q).
Proof.
  intros E q He.
  pose proof (digits2_pos_bounds m) as Hd.
  set (d := Zpos (digits2_pos m)) in *.
  assert (HE : E = Z.max (d + e - 53) (-1074)) by reflexivity.
  assert (Hs : 0 < 2 ^ (E - e)) by (apply Z.pow_pos_nonneg; lia).
  pose proof (rne_bounds (Zpos m) (E - e) ltac:(lia) ltac:(lia)) as Hb.
  fold q in Hb.
  assert (Hlt : Zpos m / 2 ^ (E - e) < 2 ^ 53).
  { apply Z.div_lt_upper_bound; [exact Hs |].
    rewrite <- Z.pow_add_r by lia.
    apply Z.lt_le_trans with (2 ^ d); [lia |].
    apply Z.pow_le_mono_r; lia. }
  assert (Hge : 0 <= Zpos m / 2 ^ (E - e)) by (apply Z.div_pos; lia).
  assert (Hnorm : -1074 < E -> 2 ^ 52 <= q).
  { intros Hn. apply Z.le_trans with (Zpos m / 2 ^ (E - e)); [| lia].
    apply Z.div_le_lower_bound; [exact Hs |].
    rewrite <- Z.pow_add_r by lia.
    replace (E - e + 52) with (d - 1) by lia. lia. }
  split; [| split; [lia | exact Hnorm]].
  unfold binary_round_aux, shr_fexp.
  change (Zdigits2 (Zpos m)) with d.
  change (fexp prec emax (d + e)) with E.
  change (shr_record_of_loc (Zpos m) loc_Exact)
    with (Build_shr_record (Zpos m) false false).
  pose proof (round_shr (Zpos m) e (E - e) ltac:(lia) ltac:(lia)) as Hr.
  destruct (shr (Build_shr_record (Zpos m) false false) e (E - e)) as [mrs e'].
  destruct Hr as [Hq He']. rewrite Hq. fold q.
  replace e' with E by lia.
  unfold pack.
  destruct (Z.eqb_spec q 0) as [Hq0 | Hq0].
  - rewrite Hq0. rewrite shr_nonpos; [reflexivity |].
    cbn [Zdigits2]. rewrite fexp_eq. lia.
  - destruct (Z.leb_spec (2 ^ 53) q) as [Hbig | Hsmall].
    + assert (Hq53 : q = 2 ^ 53) by lia. rewrite Hq53.
      change (2 ^ 53) with 9007199254740992.
      change (Zdigits2 9007199254740992) with 54.
      rewrite fexp_eq.
      replace (Z.max (54 + E - 53) (-1074) - E) with 1 by lia.
      reflexivity.
    + destruct q as [| p | p]; [lia | | lia].
      pose proof (digits2_pos_bounds p) as Hdp.
      assert (Hdig : Zpos (digits2_pos p) <= 53).
      { destruct (Z.le_gt_cases (Zpos (digits2_pos p)) 53) as [H | H]; [exact H |].
        exfalso. assert (2 ^ 53 <= 2 ^ (Zpos (digits2_pos p) - 1))
          by (apply Z.pow_le_mono_r; lia). lia. }
      rewrite shr_nonpos.
      * reflexivity.
      * cbn [Zdigits2]. rewrite fexp_eq. lia.
Qed.

Lemma leb_finite_pos (m1 m2 : positive) (e1 e2 : Z) :
  e1 < e2 \/ (e1 = e2 /\ (m1 <= m2)%positive) ->
  SFleb (S754_finite false m1 e1) (S754_finite false m2 e2) = true.
Proof.
  intros H. unfold SFleb, SFcompare.
  destruct (Z.compare_spec e1 e2) as [He | He | He]; [| reflexivity | lia].
  change (Pos.compare_cont Eq m1 m2) with (m1 ?= m2)%positive.
  destruct (Pos.compare_spec m1 m2); [reflexivity | reflexivity | lia].
Qed.

Lemma pack_mono (q1 E1 q2 E2 : Z) :
  0 <= q1 <= 2 ^ 53 -> 0 <= q2 <= 2 ^ 53 ->
  (E1 = E2 /\ q1 <= q2) \/ (E1 < E2 /\ 2 ^ 52 <= q2) ->
  leb (pack q1 E1) (pack q2 E2) = true.
Proof.
  change (2 ^ 53) with 9007199254740992. change (2 ^ 52) with 4503599627370496.
  intros H1 H2 H. unfold pack, out, leb.
  change (2 ^ 53) with 9007199254740992. change (2 ^ 52) with 4503599627370496.
  change (emax - prec) with 971.
  destruct (Z.eqb_spec q1 0), (Z.eqb_spec q2 0),
    (Z.leb_spec 9007199254740992 q1), (Z.leb_spec 9007199254740992 q2),
    (Z.leb_spec (E1 + 1) 971), (Z.leb_spec (E2 + 1) 971),
    (Z.leb_spec E1 971), (Z.leb_spec E2 971);
    try lia; try reflexivity; apply leb_finite_pos; lia.
Qed.

(** Rounding is monotone: of two positive numbers [m1 * 2 ^ e1 <= m2 * 2 ^ e2]
    whose digits reach below the last place of a double, the first rounds to
    a double no larger than the second. *)
Lemma binary_round_aux_mono (m1 m2 : positive) (e1 e2 : Z) :
  e1 <= fexp prec emax (Zpos (digits2_pos m1) + e1) ->
  e2 <= fexp prec emax (Zpos (digits2_pos m2) + e2) ->
  Zpos m1 * 2 ^ (e1 - Z.min e1 e2) <= Zpos m2 * 2 ^ (e2 - Z.min e1 e2) ->
  leb (binary_round_aux prec emax false (Zpos m1) e1 loc_Exact)
      (binary_round_aux prec emax false (Zpos m2) e2 loc_Exact) = true.
Proof.
  intros He1 He2 Hle.
  destruct (binary_round_aux_pos m1 e1 He1) as (-> & Hq1 & _).
  destruct (binary_round_aux_pos m2 e2 He2) as (-> & Hq2 & Hn2).
  pose proof (digits2_pos_bounds m1) as Hd1.
  pose proof (digits2_pos_bounds m2) as Hd2.
  set (d1 := Zpos (digits2_pos m1)) in *.
  set (d2 := Zpos (digits2_pos m2)) in *.
  rewrite !fexp_eq in *.
  set (e0 := Z.min e1 e2) in *.
  assert (Hmag : d1 + e1 <= d2 + e2).
  { assert (H : 2 ^ (d1 - 1 + (e1 - e0)) < 2 ^ (d2 + (e2 - e0))).
    { rewrite !Z.pow_add_r by (unfold d1, d2, e0; lia).
      assert (0 < 2 ^ (e1 - e0)) by (apply Z.pow_pos_nonneg; unfold e0; lia).
      assert (0 < 2 ^ (e2 - e0)) by (apply Z.pow_pos_nonneg; unfold e0; lia).
      nia. }
    apply Z.pow_lt_mono_r_iff in H; unfold d2, e0 in *; lia. }
  apply pack_mono; [exact Hq1 | exact Hq2 |].
  destruct (Z.eq_dec (Z.max (d1 + e1 - 53) (-1074)) (Z.max (d2 + e2 - 53) (-1074)))
    as [HE | HE].
  - left. split; [exact HE |]. rewrite HE.
    set (E := Z.max (d2 + e2 - 53) (-1074)) in *.
    destruct (Z.le_gt_cases e1 e2) as [H12 | H12].
    + replace (e1 - e0) with 0 in Hle by (unfold e0; lia).
      replace (e2 - e0) with (e2 - e1) in Hle by (unfold e0; lia).
      rewrite <- (rne_scale (Zpos m2) (E - e2) (e2 - e1)) by lia.
      replace (E - e2 + (e2 - e1)) with (E - e1) by lia.
      apply rne_mono; lia.
    + replace (e2 - e0) with 0 in Hle by (unfold e0; lia).
      replace (e1 - e0) with (e1 - e2) in Hle by (unfold e0; lia).
      rewrite <- (rne_scale (Zpos m1) (E - e1) (e1 - e2)) by lia.
      replace (E - e1 + (e1 - e2)) with (E - e2) by lia.
      apply rne_mono; lia.
  - right. split; [lia |]. apply Hn2. lia.
Qed.

(** ** The order of doubles *)

Lemma SFcompare_antisym (x y : real_type) :
  SFcompare y x = option_map CompOpp (SFcompare x y).
Proof.
  destruct x as [[] | [] | | [] mx ex], y as [[] | [] | | [] my ey];
    try reflexivity; simpl; rewrite (Z.compare_antisym ex ey);
    destruct (ex ?= ey); simpl; try reflexivity;
    change (Pos.compare_cont Eq my mx) with (my ?= mx)%positive;
    change (Pos.compare_cont Eq mx my) with (mx ?= my)%positive;
    rewrite (Pos.compare_antisym mx my); destruct (mx ?= my)%positive;
    reflexivity.
Qed.

Ltac order_cases :=
  repeat match goal with
  | H : context [(?x ?= ?y)%Z] |- _ => destruct (Z.compare_spec x y)
  | |- context [(?x ?= ?y)%Z] => destruct (Z.compare_spec x y)
  | H : context [Pos.compare_cont Eq ?x ?y] |- _ =>
      change (Pos.compare_cont Eq x y) with (x ?= y)%positive in *;
      destruct (Pos.compare_spec x y)
  | |- context [Pos.compare_cont Eq ?x ?y] =>
      change (Pos.compare_cont Eq x y) with (x ?= y)%positive in *;
      destruct (Pos.compare_spec x y)
  end.

Lemma leb_ltb_trans (a b c : real_type) :
  leb a b = true -> ltb b c = true -> ltb a c = true.
Proof.
  unfold leb, ltb, SFleb, SFltb.
  destruct a as [[] | [] | | [] ma ea], b as [[] | [] | | [] mb eb],
    c as [[] | [] | | [] mc ec]; simpl; try discriminate; try reflexivity;
    intros H1 H2; order_cases; simpl in *;
    try discriminate; try reflexivity; lia.
Qed.

(** ** Multiplication by a tolerance is monotone *)

Lemma wf_finite (s : bool) (m : positive) (e : Z) :
  wf (S754_finite s m e) ->
  fexp prec emax (Zpos (digits2_pos m) + e) = e /\ e <= 971.
Proof.
  unfold wf, valid_binary, bounded, canonical_mantissa. intros H.
  apply andb_true_iff in H. destruct H as [Hc Hb].
  apply Z.eqb_eq in Hc. apply Z.leb_le in Hb. split; [exact Hc | exact Hb].
Qed.

Lemma digits2_pos_mul (m1 m2 : positive) :
  Zpos (digits2_pos m1) + Zpos (digits2_pos m2) - 1
  <= Zpos (digits2_pos (m1 * m2)).
Proof.
  pose proof (digits2_pos_bounds m1) as H1.
  pose proof (digits2_pos_bounds m2) as H2.
  pose proof (digits2_pos_bounds (m1 * m2)) as H.
  set (d1 := Zpos (digits2_pos m1)) in *.
  set (d2 := Zpos (digits2_pos m2)) in *.
  set (d := Zpos (digits2_pos (m1 * m2))) in *.
  assert (Hlt : 2 ^ ((d1 - 1) + (d2 - 1)) < 2 ^ d).
  { rewrite Z.pow_add_r by (unfold d1, d2; lia).
    rewrite Pos2Z.inj_mul in H.
    assert (P1 : 0 < 2 ^ (d1 - 1)) by (apply Z.pow_pos_nonneg; unfold d1; lia).
    assert (P2 : 0 < 2 ^ (d2 - 1)) by (apply Z.pow_pos_nonneg; unfold d2; lia).
    nia. }
  apply Z.pow_lt_mono_r_iff in Hlt; unfold d in *; lia.
Qed.

(** The exact product of two doubles has its last digit at or below the last
    place of the double it rounds to. *)
Lemma mul_shift (m1 m2 : positive) (e1 e2 : Z) :
  fexp prec emax (Zpos (digits2_pos m1) + e1) = e1 ->
  fexp prec emax (Zpos (digits2_pos m2) + e2) = e2 ->
  e1 + e2 <= fexp prec emax (Zpos (digits2_pos (m1 * m2)) + (e1 + e2)).
Proof.
  rewrite !fexp_eq. intros H1 H2.
  pose proof (digits2_pos_mul m1 m2). lia.
Qed.

Lemma leb_finite_pos_inv (m1 m2 : positive) (e1 e2 : Z) :
  SFleb (S754_finite false m1 e1) (S754_finite false m2 e2) = true ->
  e1 < e2 \/ (e1 = e2 /\ (m1 <= m2)%positive).
Proof.
  unfold SFleb, SFcompare.
  destruct (Z.compare_spec e1 e2) as [He | He | He];
    [| intros _; left; exact He | discriminate].
  change (Pos.compare_cont Eq m1 m2) with (m1 ?= m2)%positive.
  destruct (Pos.compare_spec m1 m2) as [Hm | Hm | Hm]; intros Hc;
    try discriminate; right; lia.
Qed.

Lemma mul_mono_finite (mr mv mu : positive) (er ev eu : Z) :
  wf (S754_finite false mr er) -> wf (S754_finite false mv ev) ->
  wf (S754_finite false mu eu) ->
  leb (S754_finite false mv ev) (S754_finite false mu eu) = true ->
  leb (mul (S754_finite false mr er) (S754_finite false mv ev))
      (mul (S754_finite false mr er) (S754_finite false mu eu)) = true.
Proof.
  intros Hr Hv Hu Hle.
  destruct (wf_finite _ _ _ Hr) as [Cr _].
  destruct (wf_finite _ _ _ Hv) as [Cv _].
  destruct (wf_finite _ _ _ Hu) as [Cu _].
  apply leb_finite_pos_inv in Hle.
  unfold mul, SFmul. cbn [xorb].
  apply binary_round_aux_mono;
    [apply mul_shift; assumption | apply mul_shift; assumption |].
  pose proof (digits2_pos_bounds mv) as Bv.
  pose proof (digits2_pos_bounds mu) as Bu.
  rewrite fexp_eq in Cv, Cu.
  rewrite !Pos2Z.inj_mul.
  destruct Hle as [Hlt | [Heq Hm]].
  - replace (er + ev - Z.min (er + ev) (er + eu)) with 0 by lia.
    replace (er + eu - Z.min (er + ev) (er + eu)) with (eu - ev) by lia.
    assert (Hdu : Zpos (digits2_pos mu) = 53) by lia.
    assert (Hdv : Zpos (digits2_pos mv) <= 53) by lia.
    rewrite Hdu in Bu. change (2 ^ (53 - 1)) with 4503599627370496 in Bu.
    assert (Hv53 : Zpos mv < 2 ^ 53).
    { apply Z.lt_le_trans with (2 ^ Zpos (digits2_pos mv)); [lia |].
      apply Z.pow_le_mono_r; lia. }
    change (2 ^ 53) with 9007199254740992 in Hv53.
    assert (H2 : 2 ^ 1 <= 2 ^ (eu - ev)) by (apply Z.pow_le_mono_r; lia).
    change (2 ^ 1) with 2 in H2. change (2 ^ 0) with 1.
    assert (Hvu : Zpos mv <= Zpos mu * 2 ^ (eu - ev)) by nia.
    rewrite Z.mul_1_r, <- Z.mul_assoc.
    apply Z.mul_le_mono_nonneg_l; lia.
  - subst eu. apply Z.mul_le_mono_nonneg_r.
    + apply Z.pow_nonneg. lia.
    + apply Z.mul_le_mono_nonneg_l; lia.
Qed.

Lemma fabs_nonneg_finite (x : real_type) :
  isfinite x = true -> nonneg_finite (fabs x) = true.
Proof. destruct x; try discriminate; reflexivity. Qed.

Lemma fabs_wf (x : real_type) : wf x -> wf (fabs x).
Proof. destruct x; auto. Qed.

Lemma leb_zero_pack (s : bool) (q E : Z) :
  0 <= q -> leb (S754_zero s) (pack q E) = true.
Proof.
  intros Hq. unfold pack, out.
  destruct (q =? 0); [reflexivity |].
  destruct (2 ^ 53 <=? q).
  - destruct (E + 1 <=? emax - prec); reflexivity.
  - destruct (E <=? emax - prec); reflexivity.
Qed.

Lemma mul_mono (r u v : real_type) :
  wf r -> wf u -> wf v -> geb r zero = true ->
  nonneg_finite u = true -> nonneg_finite v = true -> leb v u = true ->
  mul r v = nan \/ mul r u = nan \/ leb (mul r v) (mul r u) = true.
Proof.
  intros Wr Wu Wv Hr Hu Hv Hle.
  destruct r as [sr | [] | | [] mr er]; try discriminate Hr.
  - right. right.
    destruct u as [su | | | [] mu eu], v as [sv | | | [] mv ev];
      try discriminate; reflexivity.
  - destruct v as [sv | | | [] mv ev]; try discriminate Hv;
      [left; reflexivity |].
    destruct u as [su | | | [] mu eu]; try discriminate Hu;
      [right; left; reflexivity |].
    right. right. reflexivity.
  - right. right.
    destruct v as [sv | | | [] mv ev]; try discriminate Hv;
      destruct u as [su | | | [] mu eu]; try discriminate Hu.
    + reflexivity.
    + unfold mul, SFmul. cbn [xorb].
      destruct (wf_finite _ _ _ Wr) as [Cr _].
      destruct (wf_finite _ _ _ Wu) as [Cu _].
      destruct (binary_round_aux_pos (mr * mu) (er + eu)) as (-> & Hq & _);
        [apply mul_shift; assumption |].
      apply leb_zero_pack. lia.
    + discriminate Hle.
    + apply mul_mono_finite; assumption.
Qed.

Lemma fmax_cases (u v : real_type) :
  nonneg_finite u = true -> nonneg_finite v = true ->
  (fmax u v = u /\ leb v u = true) \/ (fmax u v = v /\ leb u v = true).
Proof.
  intros Hu Hv.
  assert (Hf : fmax u v = if ltb u v then v else u).
  { destruct u as [| | | [] ? ?], v as [| | | [] ? ?]; try discriminate;
      reflexivity. }
  rewrite Hf. unfold ltb, leb, SFltb, SFleb.
  rewrite (SFcompare_antisym u v).
  destruct (SFcompare u v) as [[| |] |] eqn:Hc; cbn [option_map CompOpp]; auto.
  destruct u as [| | | [] ? ?], v as [| | | [] ? ?]; discriminate.
Qed.

Lemma ltb_not_leb (a b : real_type) : ltb a b = true -> leb b a = false.
Proof.
  unfold ltb, leb, SFltb, SFleb. rewrite (SFcompare_antisym a b).
  destruct (SFcompare a b) as [[| |] |]; try discriminate; reflexivity.
Qed.

Lemma eqb_refl_finite (x : real_type) : isfinite x = true -> eqb x x = true.
Proof.
  unfold eqb, SFeqb.
  destruct x as [s | s | | [] m e]; try discriminate; intros _; simpl;
    try reflexivity; rewrite Z.compare_refl;
    change (Pos.compare_cont Eq m m) with (m ?= m)%positive;
    rewrite Pos.compare_refl; reflexivity.
Qed.

(** Finite doubles that compare equal have the difference zero. *)
Lemma eqb_sub_zero (x y : real_type) :
  isfinite x = true -> isfinite y = true -> eqb x y = true ->
  fabs (sub x y) = S754_zero false.
Proof.
  unfold eqb, SFeqb, fabs, sub.
  destruct x as [sx | sx | | sx mx ex], y as [sy | sy | | sy my ey];
    try discriminate; intros _ _.
  - destruct sx, sy; reflexivity.
  - simpl. destruct sy; discriminate.
  - simpl. destruct sx; discriminate.
  - intros H.
    assert (Heq : sx = sy /\ ex = ey /\ mx = my).
    { simpl in H. destruct sx, sy; try discriminate;
        destruct (Z.compare_spec ex ey); try discriminate;
        change (Pos.compare_cont Eq mx my) with (mx ?= my)%positive in H;
        destruct (Pos.compare_spec mx my); try discriminate; auto. }
    destruct Heq as (-> & -> & ->). unfold SFsub.
    rewrite Z.sub_diag. reflexivity.
Qed.

Lemma geb_zero_not_gtb (a : real_type) :
  geb a zero = true -> gtb (S754_zero false) a = false.
Proof.
  unfold geb, gtb, zero. intros H. apply not_true_is_false. intros Hlt.
  apply ltb_not_leb in Hlt. unfold leb in Hlt. congruence.
Qed.

(** C1: for finite doubles [x] and [y] and tolerances that are not negative,
    [isClose] returns (it does not abort), and returns true exactly when
    [x == y] or the distance [|x - y|], as the code computes it, is at most
    [abs_tol], or at most [rel_tol * |x|], or at most [rel_tol * |y|]; so it
    returns true on identical arguments, and false when the distance is above
    [abs_tol] and above [rel_tol * max (|x|, |y|)]. *)
Theorem isClose_finite (x y rel_tol abs_tol : real_type) :
  wf x -> wf y -> wf rel_tol ->
  isfinite x = true -> isfinite y = true ->
  geb rel_tol zero = true -> geb abs_tol zero = true ->
  let d := fabs (sub x y) in
  exists r,
    isClose x y rel_tol abs_tol = Some r
    /\ (r = true <->
        eqb x y = true \/ leb d abs_tol = true
        \/ leb d (mul rel_tol (fabs x)) = true
        \/ leb d (mul rel_tol (fabs y)) = true)
    /\ (x = y -> r = true)
    /\ (gtb d abs_tol = true ->
        gtb d (mul rel_tol (fmax (fabs x) (fabs y))) = true ->
        r = false).
Proof.
  intros Wx Wy Wr Fx Fy Hr Ha d.
  unfold isClose. rewrite Hr, Ha, Fx, Fy. cbn [negb andb]. fold d.
  destruct (eqb x y) eqn:Heq.
  - exists true. split; [reflexivity |]. split; [| split].
    + split; auto.
    + reflexivity.
    + intros Hgt _. exfalso. unfold d in Hgt.
      rewrite (eqb_sub_zero x y Fx Fy Heq) in Hgt.
      rewrite (geb_zero_not_gtb abs_tol Ha) in Hgt. discriminate.
  - eexists. split; [reflexivity |]. split; [| split].
    + rewrite !orb_true_iff. split.
      * intros [[H | H] | H]; auto.
      * intros [H | [H | [H | H]]]; auto. discriminate.
    + intros ->. rewrite (eqb_refl_finite y Fy) in Heq. discriminate.
    + intros Hga Hgm.
      assert (Hrel : forall w, nonneg_finite w = true -> wf w ->
                leb w (fmax (fabs x) (fabs y)) = true ->
                leb d (mul rel_tol w) = false).
      { intros w Hw Ww Hle.
        set (M := fmax (fabs x) (fabs y)) in *.
        assert (HM : nonneg_finite M = true /\ wf M).
        { unfold M. destruct (fmax_cases (fabs x) (fabs y)) as [[-> _] | [-> _]];
            auto using fabs_nonneg_finite, fabs_wf. }
        destruct HM as [HM WM].
        destruct (mul_mono rel_tol M w Wr WM Ww Hr HM Hw Hle) as [E | [E | E]].
        - rewrite E. unfold leb, SFleb. destruct d; reflexivity.
        - unfold gtb in Hgm. rewrite E in Hgm. discriminate.
        - apply ltb_not_leb. apply (leb_ltb_trans _ (mul rel_tol M)); assumption. }
      rewrite (ltb_not_leb _ _ Hga).
      destruct (fmax_cases (fabs x) (fabs y)) as [[E Hle] | [E Hle]];
        auto using fabs_nonneg_finite.
      * rewrite (Hrel (fabs x)), (Hrel (fabs y)); auto using fabs_nonneg_finite, fabs_wf.
        -- rewrite E. exact Hle.
        -- rewrite E. destruct (fmax_cases (fabs x) (fabs x)) as [[_ H] | [_ H]];
             auto using fabs_nonneg_finite.
      * rewrite (Hrel (fabs x)), (Hrel (fabs y)); auto using fabs_nonneg_finite, fabs_wf.
        -- rewrite E. destruct (fmax_cases (fabs y) (fabs y)) as [[_ H] | [_ H]];
             auto using fabs_nonneg_finite.
        -- rewrite E. exact Hle.
Qed.

Lemma isClose_finite_witness :
  isClose one zero lit_1e_8 lit_1e_16 = Some false.
Proof.
  destruct (isClose_finite one zero lit_1e_8 lit_1e_16)
    as (r & Hrun & _ & _ & Hfar).
  - reflexivity.
  - reflexivity.
  - reflexivity.
  - reflexivity.
  - reflexivity.
  - reflexivity.
  - reflexivity.
  - rewrite Hrun. f_equal. apply Hfar; reflexivity.
Defined.

(** C2, as the code has it: [==] on doubles is false on a NaN, so
    [isClose (NaN, NaN, ...)] is false; with an argument that is not finite
    the answer is that of [x == y], which holds exactly when both are the
    same infinity. *)
Theorem isClose_non_finite (rel_tol abs_tol : real_type) :
  geb rel_tol zero = true -> geb abs_tol zero = true ->
  isClose nan nan rel_tol abs_tol = Some false
  /\ isClose nan one rel_tol abs_tol = Some false
  /\ isClose pinf pinf rel_tol abs_tol = Some true
  /\ forall x y, isfinite x && isfinite y = false ->
       isClose x y rel_tol abs_tol = Some (eqb x y)
       /\ (eqb x y = true <-> exists s, x = S754_infinity s /\ y = S754_infinity s).
Proof.
  intros Hr Ha. unfold isClose. rewrite Hr, Ha. simpl.
  split; [reflexivity |]. split; [reflexivity |]. split; [reflexivity |].
  intros x y Hfin. rewrite Hfin. split; [reflexivity |].
  unfold eqb, SFeqb. split.
  - destruct x as [sx | sx | | sx mx ex], y as [sy | sy | | sy my ey];
      try discriminate Hfin; simpl;
      try destruct sx; try destruct sy; try discriminate; intros _.
    + exists true. split; reflexivity.
    + exists false. split; reflexivity.
  - intros (s & -> & ->). destruct s; reflexivity.
Qed.

Lemma isClose_non_finite_witness :
  isClose nan nan lit_1e_8 lit_1e_16 = Some false
  /\ isClose nan one lit_1e_8 lit_1e_16 = Some false
  /\ isClose pinf pinf lit_1e_8 lit_1e_16 = Some true.
Proof.
  destruct (isClose_non_finite lit_1e_8 lit_1e_16) as (H1 & H2 & H3 & _).
  - reflexivity.
  - reflexivity.
  - auto.
Defined.

(** C2 as the specification words it fails: two NaNs do not compare as
    equal. *)
Lemma isClose_nan_nan_not_true :
  geb lit_1e_8 zero = true /\ geb lit_1e_16 zero = true
  /\ isClose nan nan lit_1e_8 lit_1e_16 <> Some true.
Proof. split; [reflexivity |]. split; [reflexivity |]. discriminate. Qed.

(** ** The kernel: one lane *)

Section Lane.

Variables (blockDim_x blockIdx_x threadIdx_x : Z) (a b c : ptr) (count : Z).

Let i : Z := thread_id_of blockDim_x blockIdx_x threadIdx_x.

Lemma thread_id_range : 0 <= i < 2 ^ 32.
Proof. apply Z.mod_pos_bound. lia. Qed.

(** A lane whose index is not below [count] does nothing at all. *)
Lemma lane_idle (m : devmem) :
  count <= i ->
  vectorAddition blockDim_x blockIdx_x threadIdx_x a b c count m
  = ([], Some (tt, m)).
Proof.
  intros Hi. unfold vectorAddition. fold i.
  destruct (Z.ltb_spec i count); [lia | reflexivity].
Qed.

(** A lane whose index is below [count] loads [a [i]] and [b [i]] and stores
    their sum to [c [i]], and faults when one of the three is out of its
    block. *)
Lemma lane_active (m : devmem) :
  i < count ->
  vectorAddition blockDim_x blockIdx_x threadIdx_x a b c count m
  = match read m a i with
    | None => ([Load a i], None)
    | Some x =>
        match read m b i with
        | None => ([Load a i; Load b i], None)
        | Some y =>
            ([Load a i; Load b i; Store c i],
             m' ← write m c i (add x y); Some (tt, m'))
        end
    end.
Proof.
  intros Hi. unfold vectorAddition. fold i.
  destruct (Z.ltb_spec i count); [| lia].
  unfold mbind, kernel_bind, load, store.
  destruct (read m a i) as [x|]; simpl; [| reflexivity].
  destruct (read m b i) as [y|]; simpl; reflexivity.
Qed.

End Lane.

Lemma read_Some (m : memory) (p : ptr) (buf : list real_type) (j : Z) :
  block_of m p = Some buf -> 0 <= j < Z.of_nat (length buf) ->
  exists x, read m p j = Some x /\ buf !! Z.to_nat j = Some x.
Proof.
  intros Hb Hj. unfold read. rewrite Hb. simpl.
  destruct (Z.leb_spec 0 j); [| lia].
  destruct (lookup_lt_is_Some_2 buf (Z.to_nat j)) as [x Hx]; [lia |].
  exists x. split; assumption.
Qed.

Lemma write_Some (m : memory) (b : positive) (buf : list real_type) (j : Z)
    (x : real_type) :
  m !! b = Some buf -> 0 <= j < Z.of_nat (length buf) ->
  write m (Ptr b) j x = Some (<[b := <[Z.to_nat j := x]> buf]> m).
Proof.
  intros Hb Hj. unfold write. rewrite Hb. simpl.
  destruct (Z.leb_spec 0 j); [| lia].
  destruct (Z.ltb_spec j (Z.of_nat (length buf))); [| lia].
  reflexivity.
Qed.

Lemma write_inv (m m' : memory) (p : ptr) (j : Z) (x : real_type) :
  write m p j x = Some m' ->
  exists b buf, p = Ptr b /\ m !! b = Some buf
    /\ 0 <= j < Z.of_nat (length buf)
    /\ m' = <[b := <[Z.to_nat j := x]> buf]> m.
Proof.
  unfold write. destruct p as [|b]; [discriminate |].
  destruct (m !! b) as [buf|] eqn:Hb; simpl; [| discriminate].
  destruct (Z.leb_spec 0 j); simpl; [| discriminate].
  destruct (Z.ltb_spec j (Z.of_nat (length buf))); [| discriminate].
  intros [= <-]. exists b, buf. repeat split; auto.
Qed.

Lemma read_insert_same (m : memory) (b : positive) (buf : list real_type)
    (j : Z) (x : real_type) :
  0 <= j < Z.of_nat (length buf) ->
  read (<[b := <[Z.to_nat j := x]> buf]> m) (Ptr b) j = Some x.
Proof.
  intros Hj. unfold read, block_of. rewrite lookup_insert_eq. simpl.
  destruct (Z.leb_spec 0 j); [| lia].
  apply list_lookup_insert_eq. lia.
Qed.

Lemma read_insert_other (m : memory) (b : positive) (buf : list real_type)
    (j k : Z) (x : real_type) :
  m !! b = Some buf -> 0 <= j -> j <> k ->
  read (<[b := <[Z.to_nat j := x]> buf]> m) (Ptr b) k = read m (Ptr b) k.
Proof.
  intros Hb Hj Hjk. unfold read, block_of. rewrite lookup_insert_eq, Hb. simpl.
  destruct (Z.leb_spec 0 k); [| reflexivity].
  apply list_lookup_insert_ne. lia.
Qed.

Lemma block_of_insert_ne (m : memory) (b : positive) (buf : list real_type)
    (p : ptr) :
  p <> Ptr b -> block_of (<[b := buf]> m) p = block_of m p.
Proof.
  intros Hp. destruct p as [|b']; [reflexivity |]. simpl.
  apply lookup_insert_ne. congruence.
Qed.

(** C3: a lane with global index [i] below [count] stores [a [i] + b [i]] to
    [c [i]]; a lane with [i >= count] does nothing; and every access a lane
    makes is at its own index [i], with [i < count], inside the block, the
    three blocks holding at least [count] elements. *)
Theorem vectorAddition_guarded
    (blockDim_x blockIdx_x threadIdx_x : Z) (a b c : ptr) (count : Z)
    (m : devmem) (abuf bbuf cbuf : list real_type) :
  block_of m a = Some abuf -> block_of m b = Some bbuf ->
  block_of m c = Some cbuf ->
  count <= Z.of_nat (length abuf) -> count <= Z.of_nat (length bbuf) ->
  count <= Z.of_nat (length cbuf) ->
  let i := thread_id_of blockDim_x blockIdx_x threadIdx_x in
  let run := vectorAddition blockDim_x blockIdx_x threadIdx_x a b c count m in
  (0 <= i < count ->
   exists x y m',
     read m a i = Some x /\ read m b i = Some y
     /\ run.2 = Some (tt, m') /\ read m' c i = Some (add x y))
  /\ (count <= i -> run = ([], Some (tt, m)))
  /\ (forall acc, acc ∈ run.1 ->
        access_index acc = i /\ 0 <= i < count /\ in_bounds m acc).
Proof.
  intros Ha Hb Hc La Lb Lc i run.
  pose proof (thread_id_range blockDim_x blockIdx_x threadIdx_x) as Hr.
  fold i in Hr.
  destruct (Z.lt_ge_cases i count) as [Hi | Hi].
  - destruct (read_Some m a abuf i Ha) as (x & Hx & _); [lia |].
    destruct (read_Some m b bbuf i Hb) as (y & Hy & _); [lia |].
    destruct c as [|cb]; [discriminate |]. simpl in Hc.
    assert (Hrun : run = ([Load a i; Load b i; Store (Ptr cb) i],
                          Some (tt, <[cb := <[Z.to_nat i := add x y]> cbuf]> m))).
    { unfold run. rewrite lane_active by exact Hi. fold i. rewrite Hx, Hy.
      rewrite (write_Some m cb cbuf) by (auto; lia). reflexivity. }
    rewrite Hrun. split; [| split].
    + intros _. exists x, y. eexists. repeat split; eauto.
      apply read_insert_same. lia.
    + lia.
    + intros acc Hacc. simpl in Hacc.
      rewrite !elem_of_cons, elem_of_nil in Hacc.
      destruct Hacc as [-> | [-> | [-> | []]]]; simpl;
        (split; [reflexivity | split; [lia |]]).
      * exists abuf. simpl. split; [assumption | lia].
      * exists bbuf. simpl. split; [assumption | lia].
      * exists cbuf. simpl. split; [assumption | lia].
  - assert (Hrun : run = ([], Some (tt, m))) by (apply lane_idle; exact Hi).
    rewrite Hrun. split; [lia | split; [reflexivity |]].
    intros acc Hacc. simpl in Hacc. apply elem_of_nil in Hacc. destruct Hacc.
Qed.


Lemma vectorAddition_guarded_witness :
  exists x y m',
    read demo_mem (Ptr 1) 1 = Some x /\ read demo_mem (Ptr 2) 1 = Some y
    /\ (vectorAddition 256 0 1 (Ptr 1) (Ptr 2) (Ptr 3) 2 demo_mem).2
       = Some (tt, m')
    /\ read m' (Ptr 3) 1 = Some (add x y).
Proof.
  refine (proj1 (vectorAddition_guarded 256 0 1 (Ptr 1) (Ptr 2) (Ptr 3) 2
                   demo_mem [one; zero] [one; one] [zero; zero]
                   _ _ _ _ _ _) _).
  - reflexivity.
  - reflexivity.
  - reflexivity.
  - simpl. lia.
  - simpl. lia.
  - simpl. lia.
  - vm_compute. split; [discriminate | reflexivity].
Defined.

(** C10: a lane leaves the blocks of [a] and [b] as they were (the three
    pointers are [__restrict__]: [c] is neither [a] nor [b]), changes no block
    but that of [c], and in it no element but the one at its own index, and
    that one only when the index is below [count]; its only store is to
    [c [i]]. *)
Theorem vectorAddition_frame
    (blockDim_x blockIdx_x threadIdx_x : Z) (a b c : ptr) (count : Z)
    (m : devmem) (abuf bbuf cbuf : list real_type) :
  block_of m a = Some abuf -> block_of m b = Some bbuf ->
  block_of m c = Some cbuf ->
  count <= Z.of_nat (length abuf) -> count <= Z.of_nat (length bbuf) ->
  count <= Z.of_nat (length cbuf) ->
  a <> c -> b <> c ->
  let i := thread_id_of blockDim_x blockIdx_x threadIdx_x in
  let run := vectorAddition blockDim_x blockIdx_x threadIdx_x a b c count m in
  exists m' cbuf',
    run.2 = Some (tt, m')
    /\ block_of m' a = Some abuf /\ block_of m' b = Some bbuf
    /\ block_of m' c = Some cbuf' /\ length cbuf' = length cbuf
    /\ (forall j : nat, Z.of_nat j <> i -> cbuf' !! j = cbuf !! j)
    /\ (forall p, p <> c -> block_of m' p = block_of m p)
    /\ (~ (0 <= i < count) -> m' = m /\ cbuf' = cbuf)
    /\ (forall acc, acc ∈ run.1 -> is_store acc = true -> acc = Store c i).
Proof.
  intros Ha Hb Hc La Lb Lc Hac Hbc i run.
  pose proof (thread_id_range blockDim_x blockIdx_x threadIdx_x) as Hr.
  fold i in Hr.
  destruct (Z.lt_ge_cases i count) as [Hi | Hi].
  - destruct (read_Some m a abuf i Ha) as (x & Hx & _); [lia |].
    destruct (read_Some m b bbuf i Hb) as (y & Hy & _); [lia |].
    destruct c as [|cb]; [discriminate |]. simpl in Hc.
    assert (Hrun : run = ([Load a i; Load b i; Store (Ptr cb) i],
                          Some (tt, <[cb := <[Z.to_nat i := add x y]> cbuf]> m))).
    { unfold run. rewrite lane_active by exact Hi. fold i. rewrite Hx, Hy.
      rewrite (write_Some m cb cbuf) by (auto; lia). reflexivity. }
    rewrite Hrun.
    exists (<[cb := <[Z.to_nat i := add x y]> cbuf]> m),
           (<[Z.to_nat i := add x y]> cbuf).
    split; [reflexivity |].
    split; [rewrite block_of_insert_ne by exact Hac; exact Ha |].
    split; [rewrite block_of_insert_ne by exact Hbc; exact Hb |].
    split; [simpl; apply lookup_insert_eq |].
    split; [apply length_insert |].
    split; [intros j Hj; apply list_lookup_insert_ne; lia |].
    split; [intros p Hp; apply block_of_insert_ne; exact Hp |].
    split; [intros Hn; lia |].
    intros acc Hacc Hst. simpl in Hacc.
    rewrite !elem_of_cons, elem_of_nil in Hacc.
    destruct Hacc as [-> | [-> | [-> | []]]]; try discriminate Hst.
    reflexivity.
  - assert (Hrun : run = ([], Some (tt, m))) by (apply lane_idle; exact Hi).
    rewrite Hrun. exists m, cbuf.
    split; [reflexivity |].
    split; [exact Ha |].
    split; [exact Hb |].
    split; [exact Hc |].
    split; [reflexivity |].
    split; [reflexivity |].
    split; [reflexivity |].
    split; [intros _; split; reflexivity |].
    intros acc Hacc. simpl in Hacc. apply elem_of_nil in Hacc. destruct Hacc.
Qed.

Lemma vectorAddition_frame_witness :
  exists m' cbuf',
    (vectorAddition 256 0 1 (Ptr 1) (Ptr 2) (Ptr 3) 2 demo_mem).2
    = Some (tt, m')
    /\ block_of m' (Ptr 1) = Some [one; zero]
    /\ block_of m' (Ptr 2) = Some [one; one]
    /\ block_of m' (Ptr 3) = Some cbuf'
    /\ length cbuf' = 2%nat
    /\ cbuf' !! 0%nat = Some zero.
Proof.
  destruct (vectorAddition_frame 256 0 1 (Ptr 1) (Ptr 2) (Ptr 3) 2
              demo_mem [one; zero] [one; one] [zero; zero])
    as (m' & cbuf' & Hrun & Ha & Hb & Hc & Hlen & Hother & _).
  - reflexivity.
  - reflexivity.
  - reflexivity.
  - simpl. lia.
  - simpl. lia.
  - simpl. lia.
  - discriminate.
  - discriminate.
  - exists m', cbuf'. repeat split; try assumption.
    apply (Hother 0%nat). vm_compute. discriminate.
Defined.

(** ** The kernel: a launch *)

Lemma elem_of_grid (blocks threads : Z) (lane : Z * Z) :
  lane ∈ grid blocks threads
  <-> (0 <= lane.1 < blocks) /\ (0 <= lane.2 < threads).
Proof.
  unfold grid. rewrite list_elem_of_bind. split.
  - intros (bi & Hl & Hbi). apply list_elem_of_bind in Hl.
    destruct Hl as (ti & Hl & Hti). apply list_elem_of_ret in Hl. subst lane.
    apply elem_of_seqZ in Hbi. apply elem_of_seqZ in Hti. simpl. lia.
  - intros [Hb Ht]. exists lane.1. split.
    + apply list_elem_of_bind. exists lane.2. split.
      * apply list_elem_of_ret. destruct lane; reflexivity.
      * apply elem_of_seqZ. lia.
    + apply elem_of_seqZ. lia.
Qed.

Section Launch.

Variables (blockDim_x : Z) (a b : ptr) (cb : positive) (count : Z).
Variables (abuf bbuf : list real_type).
Hypothesis restrict_a : a <> Ptr cb.
Hypothesis restrict_b : b <> Ptr cb.
Hypothesis La : count <= Z.of_nat (length abuf).
Hypothesis Lb : count <= Z.of_nat (length bbuf).

(** What one lane leaves in the block of [c]. *)
Lemma lane_run (lane : Z * Z) (m : devmem) (cbuf : list real_type) :
  block_of m a = Some abuf -> block_of m b = Some bbuf ->
  m !! cb = Some cbuf -> count <= Z.of_nat (length cbuf) ->
  let i := lane_index blockDim_x lane in
  exists cbuf1,
    (vectorAddition blockDim_x lane.1 lane.2 a b (Ptr cb) count m).2
    = Some (tt, <[cb := cbuf1]> m)
    /\ length cbuf1 = length cbuf
    /\ (i < count -> exists x y,
          abuf !! Z.to_nat i = Some x /\ bbuf !! Z.to_nat i = Some y
          /\ cbuf1 = <[Z.to_nat i := add x y]> cbuf)
    /\ (count <= i -> cbuf1 = cbuf).
Proof.
  intros Ha Hb Hc Lc i.
  pose proof (thread_id_range blockDim_x lane.1 lane.2) as Hr.
  fold (lane_index blockDim_x lane) in Hr. fold i in Hr.
  destruct (Z.lt_ge_cases i count) as [Hi | Hi].
  - destruct (read_Some m a abuf i Ha) as (x & Hx & Hx'); [lia |].
    destruct (read_Some m b bbuf i Hb) as (y & Hy & Hy'); [lia |].
    exists (<[Z.to_nat i := add x y]> cbuf).
    rewrite lane_active by exact Hi.
    fold (lane_index blockDim_x lane). fold i. rewrite Hx, Hy.
    rewrite (write_Some m cb cbuf) by (auto; lia). simpl.
    split; [reflexivity |]. split; [apply length_insert |].
    split; [| lia]. intros _. exists x, y. auto.
  - exists cbuf. rewrite lane_idle by exact Hi. simpl.
    rewrite insert_id by exact Hc.
    split; [reflexivity |]. split; [reflexivity |]. split; [lia | auto].
Qed.

Lemma run_lanes_cons (lane : Z * Z) (rest : list (Z * Z)) (m m1 : devmem) :
  (vectorAddition blockDim_x lane.1 lane.2 a b (Ptr cb) count m).2
  = Some (tt, m1) ->
  (run_lanes (lane :: rest) blockDim_x a b (Ptr cb) count m).2
  = (run_lanes rest blockDim_x a b (Ptr cb) count m1).2.
Proof.
  destruct lane as [bi ti]. simpl. unfold mbind, kernel_bind at 1.
  destruct (vectorAddition blockDim_x bi ti a b (Ptr cb) count m)
    as [t [[[] m']|]]; simpl; [| discriminate].
  intros [= ->].
  destruct (run_lanes rest blockDim_x a b (Ptr cb) count m1); reflexivity.
Qed.

(** A launch never faults; it leaves every block but that of [c] alone, and
    in the block of [c] the sum at every index some lane of the schedule
    has, and the old value elsewhere. *)
Lemma run_lanes_spec (sched : list (Z * Z)) :
  forall (m : devmem) (cbuf : list real_type),
  block_of m a = Some abuf -> block_of m b = Some bbuf ->
  m !! cb = Some cbuf -> count <= Z.of_nat (length cbuf) ->
  exists cbuf',
    (run_lanes sched blockDim_x a b (Ptr cb) count m).2
    = Some (tt, <[cb := cbuf']> m)
    /\ length cbuf' = length cbuf
    /\ (forall lane, lane ∈ sched ->
        lane_index blockDim_x lane < count ->
        exists x y,
          abuf !! Z.to_nat (lane_index blockDim_x lane) = Some x
          /\ bbuf !! Z.to_nat (lane_index blockDim_x lane) = Some y
          /\ cbuf' !! Z.to_nat (lane_index blockDim_x lane) = Some (add x y))
    /\ (forall j : nat,
        (forall lane, lane ∈ sched ->
           lane_index blockDim_x lane <> Z.of_nat j
           \/ count <= lane_index blockDim_x lane) ->
        cbuf' !! j = cbuf !! j).
Proof.
  induction sched as [| lane rest IH]; intros m cbuf Ha Hb Hc Lc.
  - exists cbuf. simpl. rewrite insert_id by exact Hc.
    split; [reflexivity |]. split; [reflexivity |].
    split; [| reflexivity]. intros lane Hl. apply elem_of_nil in Hl. destruct Hl.
  - destruct (lane_run lane m cbuf Ha Hb Hc Lc)
      as (cbuf1 & Hrun & Hlen1 & Hact & Hidle).
    set (m1 := <[cb := cbuf1]> m) in *.
    assert (Ha1 : block_of m1 a = Some abuf).
    { unfold m1. rewrite block_of_insert_ne by exact restrict_a. exact Ha. }
    assert (Hb1 : block_of m1 b = Some bbuf).
    { unfold m1. rewrite block_of_insert_ne by exact restrict_b. exact Hb. }
    assert (Hc1 : m1 !! cb = Some cbuf1) by apply lookup_insert_eq.
    destruct (IH m1 cbuf1 Ha1 Hb1 Hc1) as (cbuf' & Hrest & Hlen & Hsum & Hold);
      [lia |].
    exists cbuf'. rewrite (run_lanes_cons lane rest m m1 Hrun), Hrest.
    unfold m1. rewrite insert_insert_eq.
    split; [reflexivity |]. split; [congruence |].
    pose proof (thread_id_range blockDim_x lane.1 lane.2) as Hr.
    fold (lane_index blockDim_x lane) in Hr.
    split.
    + intros l Hl Hi. apply elem_of_cons in Hl. destruct Hl as [-> | Hl];
        [| apply Hsum; assumption].
      destruct (decide (lane_index blockDim_x lane
                        ∈ lane_index blockDim_x <$> rest)) as [Hin | Hout].
      * apply list_elem_of_fmap in Hin. destruct Hin as (l' & Heq & Hl').
        rewrite Heq. apply Hsum; [assumption | lia].
      * destruct (Hact Hi) as (x & y & Hx & Hy & ->).
        exists x, y. split; [assumption |]. split; [assumption |].
        rewrite Hold.
        -- apply list_lookup_insert_eq. lia.
        -- intros l' Hl'. left. rewrite Z2Nat.id by lia. intros Heq.
           apply Hout. apply list_elem_of_fmap. exists l'. auto.
    + intros j Hj. rewrite Hold.
      * destruct (Hj lane) as [Hne | Hge]; [apply elem_of_cons; auto | |].
        -- destruct (Z.lt_ge_cases (lane_index blockDim_x lane) count) as [Hi | Hi].
           ++ destruct (Hact Hi) as (x & y & _ & _ & ->).
              apply list_lookup_insert_ne. lia.
           ++ rewrite (Hidle Hi). reflexivity.
        -- rewrite (Hidle Hge). reflexivity.
      * intros l' Hl'. apply Hj. apply elem_of_cons. auto.
Qed.

End Launch.

Lemma lane_index_small (blockDim_x : Z) (lane : Z * Z) :
  0 <= blockDim_x -> 0 <= lane.1 -> 0 <= lane.2 ->
  blockDim_x * lane.1 + lane.2 < 2 ^ 32 ->
  lane_index blockDim_x lane = blockDim_x * lane.1 + lane.2.
Proof.
  intros Hd Hb Ht Hlt. unfold lane_index, thread_id_of, u32.
  assert (0 <= blockDim_x * lane.1) by (apply Z.mul_nonneg_nonneg; assumption).
  rewrite (Z.mod_small (blockDim_x * lane.1)) by lia.
  apply Z.mod_small. lia.
Qed.

Lemma NoDup_grid (blocks threads : Z) : NoDup (grid blocks threads).
Proof.
  unfold grid. apply NoDup_bind.
  - intros bi1 bi2 lane _ _ H1 H2.
    apply list_elem_of_bind in H1. destruct H1 as (t1 & H1 & _).
    apply list_elem_of_bind in H2. destruct H2 as (t2 & H2 & _).
    apply list_elem_of_ret in H1. apply list_elem_of_ret in H2. congruence.
  - intros bi _. apply NoDup_bind.
    + intros t1 t2 lane _ _ H1 H2.
      apply list_elem_of_ret in H1. apply list_elem_of_ret in H2. congruence.
    + intros ti _. apply NoDup_singleton.
    + apply NoDup_seqZ.
  - apply NoDup_seqZ.
Qed.

(** On a grid whose largest index fits an [unsigned], lanes and indices
    correspond one to one. *)
Lemma lane_index_grid (blocks threads : Z) (lane : Z * Z) :
  blocks * threads <= 2 ^ 32 -> lane ∈ grid blocks threads ->
  lane_index threads lane = threads * lane.1 + lane.2
  /\ 0 <= lane_index threads lane < blocks * threads.
Proof.
  intros Hfit Hl. apply elem_of_grid in Hl. destruct Hl as [Hb Ht].
  assert (threads * lane.1 + lane.2 < blocks * threads) by nia.
  rewrite lane_index_small by lia. split; [reflexivity | nia].
Qed.

Lemma lane_index_inj (blocks threads : Z) (l1 l2 : Z * Z) :
  blocks * threads <= 2 ^ 32 ->
  l1 ∈ grid blocks threads -> l2 ∈ grid blocks threads ->
  lane_index threads l1 = lane_index threads l2 -> l1 = l2.
Proof.
  intros Hfit H1 H2 Heq.
  destruct (lane_index_grid blocks threads l1 Hfit H1) as [E1 _].
  destruct (lane_index_grid blocks threads l2 Hfit H2) as [E2 _].
  apply elem_of_grid in H1. apply elem_of_grid in H2.
  rewrite E1, E2 in Heq. destruct l1 as [b1 t1], l2 as [b2 t2]. simpl in *.
  assert (b1 = b2) by nia. subst b2. f_equal. lia.
Qed.

Lemma lane_of_index (blocks threads i : Z) :
  0 < threads -> blocks * threads <= 2 ^ 32 -> 0 <= i < blocks * threads ->
  (i / threads, i mod threads) ∈ grid blocks threads
  /\ lane_index threads (i / threads, i mod threads) = i.
Proof.
  intros Ht Hfit Hi.
  pose proof (Z.mod_pos_bound i threads Ht) as Hm.
  pose proof (Z.div_mod i threads ltac:(lia)) as Hd.
  assert (0 <= i / threads) by (apply Z.div_pos; lia).
  assert (i / threads < blocks).
  { apply Z.div_lt_upper_bound; [lia |]. rewrite Z.mul_comm. lia. }
  assert (Hin : (i / threads, i mod threads) ∈ grid blocks threads).
  { apply elem_of_grid. simpl. lia. }
  split; [exact Hin |].
  destruct (lane_index_grid blocks threads _ Hfit Hin) as [E _].
  rewrite E. simpl. lia.
Qed.

(** C4: with [count = 65536] and 256 lanes per block, the ceiling division
    gives 256 blocks, which cover the range; whatever the order in which the
    device runs the lanes of that grid, every index below [count] is the index
    of exactly one lane, no two lanes share an index, and the launch ends with
    [c [i] = a [i] + b [i]] at every [i] below [count], [a] and [b] being as
    they were. *)
Theorem launch_covers
    (m : devmem) (a b c : ptr) (abuf bbuf cbuf : list real_type)
    (sched : list (Z * Z)) :
  block_of m a = Some abuf -> block_of m b = Some bbuf ->
  block_of m c = Some cbuf ->
  a <> c -> b <> c ->
  65536 <= Z.of_nat (length abuf) -> 65536 <= Z.of_nat (length bbuf) ->
  65536 <= Z.of_nat (length cbuf) ->
  sched ≡ₚ grid (blocks_for 65536 256) 256 ->
  blocks_for 65536 256 = (65536 + 255) / 256
  /\ 65536 <= blocks_for 65536 256 * 256
  /\ (forall i, 0 <= i < 65536 ->
      exists lane, lane ∈ sched /\ lane_index 256 lane = i
        /\ forall lane', lane' ∈ sched -> lane_index 256 lane' = i -> lane' = lane)
  /\ NoDup (lane_index 256 <$> sched)
  /\ exists m' cbuf',
      (run_lanes sched 256 a b c 65536 m).2 = Some (tt, m')
      /\ block_of m' a = Some abuf /\ block_of m' b = Some bbuf
      /\ block_of m' c = Some cbuf'
      /\ forall i, 0 <= i < 65536 ->
         exists x y,
           abuf !! Z.to_nat i = Some x /\ bbuf !! Z.to_nat i = Some y
           /\ cbuf' !! Z.to_nat i = Some (add x y).
Proof.
  intros Ha Hb Hc Hac Hbc La Lb Lc Hperm.
  assert (Hblocks : blocks_for 65536 256 = 256) by reflexivity.
  rewrite Hblocks in *.
  assert (Hfit : 256 * 256 <= 2 ^ 32) by (vm_compute; discriminate).
  split; [reflexivity |]. split; [lia |].
  assert (Hcover : forall i, 0 <= i < 65536 ->
            exists lane, lane ∈ sched /\ lane_index 256 lane = i
              /\ forall lane', lane' ∈ sched -> lane_index 256 lane' = i
                               -> lane' = lane).
  { intros i Hi.
    destruct (lane_of_index 256 256 i) as [Hin Hidx]; [lia | exact Hfit | lia |].
    exists (i / 256, i mod 256). rewrite Hperm.
    split; [exact Hin |]. split; [exact Hidx |].
    intros lane' Hin' Hidx'. rewrite Hperm in Hin'.
    apply (lane_index_inj 256 256); [exact Hfit | assumption | assumption |].
    congruence. }
  split; [exact Hcover |].
  split.
  { rewrite Hperm. apply NoDup_fmap_2_strong; [| apply NoDup_grid].
    intros l1 l2 H1 H2. apply (lane_index_inj 256 256); assumption. }
  destruct c as [|cb]; [discriminate |]. simpl in Hc.
  destruct (run_lanes_spec 256 a b cb 65536 abuf bbuf Hac Hbc La Lb sched
              m cbuf Ha Hb Hc Lc) as (cbuf' & Hrun & Hlen & Hsum & _).
  exists (<[cb := cbuf']> m), cbuf'.
  split; [exact Hrun |].
  split; [rewrite block_of_insert_ne by exact Hac; exact Ha |].
  split; [rewrite block_of_insert_ne by exact Hbc; exact Hb |].
  split; [simpl; apply lookup_insert_eq |].
  intros i Hi. destruct (Hcover i Hi) as (lane & Hin & Hidx & _).
  specialize (Hsum lane Hin). rewrite Hidx in Hsum. apply Hsum. lia.
Qed.

Lemma launch_covers_witness :
  exists m' cbuf',
    (run_lanes (grid (blocks_for 65536 256) 256) 256
       (Ptr 1) (Ptr 2) (Ptr 3) 65536 full_mem).2 = Some (tt, m')
    /\ block_of m' (Ptr 3) = Some cbuf'
    /\ exists x y,
         replicate (Z.to_nat 65536) one !! Z.to_nat 65535 = Some x
         /\ replicate (Z.to_nat 65536) one !! Z.to_nat 65535 = Some y
         /\ cbuf' !! Z.to_nat 65535 = Some (add x y).
Proof.
  destruct (launch_covers full_mem (Ptr 1) (Ptr 2) (Ptr 3)
              (replicate (Z.to_nat 65536) one)
              (replicate (Z.to_nat 65536) one)
              (replicate (Z.to_nat 65536) zero)
              (grid (blocks_for 65536 256) 256))
    as (_ & _ & _ & _ & m' & cbuf' & Hrun & _ & _ & Hc & Hsum).
  - reflexivity.
  - reflexivity.
  - reflexivity.
  - discriminate.
  - discriminate.
  - rewrite length_replicate. lia.
  - rewrite length_replicate. lia.
  - rewrite length_replicate. lia.
  - reflexivity.
  - exists m', cbuf'. split; [exact Hrun |]. split; [exact Hc |].
    apply Hsum. lia.
Defined.


(** ** The host program *)

Lemma add_events_nil (s : hstate) : add_events s [] = s.
Proof. destruct s. unfold add_events. simpl. rewrite app_nil_r. reflexivity. Qed.

Lemma add_events_app (s : hstate) (l1 l2 : list event) :
  add_events (add_events s l1) l2 = add_events s (l1 ++ l2).
Proof. unfold add_events. simpl. rewrite app_assoc. reflexivity. Qed.

Lemma bind_Next {A B : Type} (k : host A) (f : A -> host B) (s s' : hstate)
    (a : A) :
  k s = Next a s' -> (k ≫= f) s = f a s'.
Proof. intros H. unfold mbind, host_bind. rewrite H. reflexivity. Qed.

Lemma bind_Return {A B : Type} (k : host A) (f : A -> host B) (s s' : hstate)
    (status : Z) :
  k s = Return status s' -> (k ≫= f) s = Return status s'.
Proof. intros H. unfold mbind, host_bind. rewrite H. reflexivity. Qed.

Lemma for_app (l1 l2 : list Z) (body : Z -> host unit) (s s1 : hstate) :
  for_ l1 body s = Next tt s1 -> for_ (l1 ++ l2) body s = for_ l2 body s1.
Proof.
  revert s. induction l1 as [| i l1 IH]; intros s H; simpl in *.
  - injection H as ->. reflexivity.
  - unfold mbind, host_bind in *.
    destruct (body i s) as [[] s' | |]; try discriminate. apply IH. exact H.
Qed.

Section Validate.

Variables (env : Env) (host_a host_b host_c : ptr).
Variables (abuf bbuf cbuf : list real_type).

Lemma hload_Some (s : hstate) (p : ptr) (buf : list real_type) (i : Z) :
  block_of (hmem s) p = Some buf -> 0 <= i < Z.of_nat (length buf) ->
  hload p i s = Next (buf !!! Z.to_nat i) s.
Proof.
  intros Hb Hi. destruct (read_Some _ _ _ _ Hb Hi) as (x & Hr & Hx).
  unfold hload, mbind, host_bind, get. rewrite Hr.
  rewrite (list_lookup_total_correct _ _ _ Hx). reflexivity.
Qed.

(** The tolerances of [main] pass both assertions. *)
Lemma close_at_not_None (i : Z) : close_at abuf bbuf cbuf i <> None.
Proof.
  unfold close_at, isClose. simpl.
  destruct (isfinite _ && isfinite _); [destruct (eqb _ _) |]; discriminate.
Qed.

Lemma validate_at_spec (s : hstate) (i : Z) :
  block_of (hmem s) host_a = Some abuf ->
  block_of (hmem s) host_b = Some bbuf ->
  block_of (hmem s) host_c = Some cbuf ->
  0 <= i < Z.of_nat (length abuf) -> i < Z.of_nat (length bbuf) ->
  i < Z.of_nat (length cbuf) ->
  validate_at env host_a host_b host_c i s
  = match close_at abuf bbuf cbuf i with
    | Some true => Next tt (add_events s (checked abuf bbuf cbuf [i]))
    | Some false => Return EXIT_FAILURE (add_events s (report env abuf bbuf cbuf i))
    | None => Crash s
    end.
Proof.
  intros Ha Hb Hc Hia Hib Hic. unfold validate_at.
  rewrite (bind_Next _ _ _ _ _ (hload_Some s host_a abuf i Ha Hia)).
  rewrite (bind_Next _ _ _ _ _ (hload_Some s host_b bbuf i Hb ltac:(lia))).
  rewrite (bind_Next _ _ _ _ _ (hload_Some s host_c cbuf i Hc ltac:(lia))).
  unfold close_at, expected_at, actual_at, call_isClose.
  destruct (isClose _ _ lit_1e_8 lit_1e_16) as [[|]|]; try reflexivity.
  unfold report, expected_at, actual_at.
  match goal with
  | |- _ = Return _ (add_events s [?e1; ?e2]) =>
      replace (add_events s [e1; e2]) with (add_events (add_events s [e1]) [e2])
        by apply add_events_app
  end.
  reflexivity.
Qed.

Lemma validate_pass (range : list Z) :
  forall s : hstate,
  block_of (hmem s) host_a = Some abuf ->
  block_of (hmem s) host_b = Some bbuf ->
  block_of (hmem s) host_c = Some cbuf ->
  (forall i, i ∈ range ->
     0 <= i < Z.of_nat (length abuf) /\ i < Z.of_nat (length bbuf)
     /\ i < Z.of_nat (length cbuf)) ->
  (forall i, i ∈ range -> close_at abuf bbuf cbuf i = Some true) ->
  for_ range (validate_at env host_a host_b host_c) s
  = Next tt (add_events s (checked abuf bbuf cbuf range)).
Proof.
  induction range as [| i rest IH]; intros s Hpa Hpb Hpc Hin Hclose.
  - simpl. unfold checked. simpl. rewrite add_events_nil. reflexivity.
  - destruct (Hin i) as (Hia & Hib & Hic); [apply elem_of_cons; auto |].
    simpl. erewrite bind_Next.
    2: { rewrite (validate_at_spec s i)
           by assumption.
         rewrite Hclose by (apply elem_of_cons; auto). reflexivity. }
    rewrite IH; try assumption.
    + rewrite add_events_app. reflexivity.
    + intros j Hj. apply Hin. apply elem_of_cons. auto.
    + intros j Hj. apply Hclose. apply elem_of_cons. auto.
Qed.

Lemma validate_fail (pre post : list Z) (k : Z) (s : hstate) :
  block_of (hmem s) host_a = Some abuf ->
  block_of (hmem s) host_b = Some bbuf ->
  block_of (hmem s) host_c = Some cbuf ->
  (forall i, i ∈ pre ++ [k] ->
     0 <= i < Z.of_nat (length abuf) /\ i < Z.of_nat (length bbuf)
     /\ i < Z.of_nat (length cbuf)) ->
  (forall i, i ∈ pre -> close_at abuf bbuf cbuf i = Some true) ->
  close_at abuf bbuf cbuf k = Some false ->
  for_ (pre ++ k :: post) (validate_at env host_a host_b host_c) s
  = Return EXIT_FAILURE
      (add_events s (checked abuf bbuf cbuf pre ++ report env abuf bbuf cbuf k)).
Proof.
  intros Hpa Hpb Hpc Hin Hclose Hk.
  rewrite (for_app pre (k :: post) _ s
             (add_events s (checked abuf bbuf cbuf pre))).
  - destruct (Hin k) as (Hia & Hib & Hic); [apply elem_of_app; right; apply list_elem_of_singleton; reflexivity |].
    simpl. erewrite bind_Return.
    2: { rewrite (validate_at_spec _ k)
           by assumption.
         rewrite Hk. reflexivity. }
    rewrite add_events_app. reflexivity.
  - apply validate_pass; try assumption.
    intros i Hi. apply Hin. apply elem_of_app. auto.
Qed.

End Validate.

Lemma written_app (f : stream) (l1 l2 : list event) :
  written f (l1 ++ l2) = written f l1 ++ written f l2.
Proof. apply omap_app. Qed.

Lemma written_checked (f : stream) (abuf bbuf cbuf : list real_type)
    (range : list Z) :
  written f (checked abuf bbuf cbuf range) = [].
Proof.
  induction range as [| i rest IH]; [reflexivity |].
  unfold checked, written in *. simpl. exact IH.
Qed.

(** C5: the loop calls [isClose (host_a [i] + host_b [i], host_c [i], 1e-8,
    1e-16)] for [i = 0, 1, ...] in this order, and the call never aborts.  At
    the first index [k] where the answer is false it prints the one line
    with [k], the expected and the actual value to [stderr] and [main]
    returns [EXIT_FAILURE], no later index having been looked at; when the
    answer is true at every index below [count] the loop ends having printed
    nothing. *)
Theorem validate_first_mismatch
    (env : Env) (count : Z) (host_a host_b host_c : ptr)
    (abuf bbuf cbuf : list real_type) (s : hstate) :
  block_of (hmem s) host_a = Some abuf ->
  block_of (hmem s) host_b = Some bbuf ->
  block_of (hmem s) host_c = Some cbuf ->
  0 <= count ->
  count <= Z.of_nat (length abuf) -> count <= Z.of_nat (length bbuf) ->
  count <= Z.of_nat (length cbuf) ->
  (forall j, close_at abuf bbuf cbuf j <> None)
  /\ (forall k, 0 <= k < count ->
      close_at abuf bbuf cbuf k = Some false ->
      (forall j, 0 <= j < k -> close_at abuf bbuf cbuf j = Some true) ->
      let trace := checked abuf bbuf cbuf (seqZ 0 k) ++ report env abuf bbuf cbuf k in
      validate env count host_a host_b host_c s
      = Return EXIT_FAILURE (add_events s trace)
      /\ EXIT_FAILURE <> 0
      /\ written stderr trace
         = [(msg "Test failed at element %zu: expected=%.*f;actual=%.*f;.",
             [ArgSize k; ArgInt (DECIMAL_DIG env);
              ArgReal (expected_at abuf bbuf k);
              ArgInt (DECIMAL_DIG env); ArgReal (actual_at cbuf k)])]
      /\ written stdout trace = [])
  /\ ((forall j, 0 <= j < count -> close_at abuf bbuf cbuf j = Some true) ->
      let trace := checked abuf bbuf cbuf (seqZ 0 count) in
      validate env count host_a host_b host_c s = Next tt (add_events s trace)
      /\ written stderr trace = [] /\ written stdout trace = []).
Proof.
  intros Hpa Hpb Hpc Hcount La Lb Lc.
  split; [intros j; apply close_at_not_None |]. split.
  - intros k Hk Hfail Hpass trace. unfold validate.
    replace (seqZ 0 count)
      with (seqZ 0 k ++ k :: seqZ (Z.succ k) (Z.pred (count - k))).
    2: { replace count with (k + (count - k)) at 2 by lia.
         rewrite seqZ_app by lia. f_equal. simpl.
         rewrite (seqZ_cons k) by lia. reflexivity. }
    split; [| split; [discriminate | split]].
    + apply validate_fail; try assumption.
      * intros i Hi. apply elem_of_app in Hi.
        destruct Hi as [Hi | Hi].
        -- apply elem_of_seqZ in Hi. lia.
        -- apply list_elem_of_singleton in Hi. lia.
      * intros i Hi. apply elem_of_seqZ in Hi. apply Hpass. lia.
    + unfold trace. rewrite written_app, written_checked. reflexivity.
    + unfold trace. rewrite written_app, written_checked. reflexivity.
  - intros Hpass trace. split; [| split; apply written_checked].
    apply validate_pass; try assumption.
    + intros i Hi. apply elem_of_seqZ in Hi. lia.
    + intros i Hi. apply elem_of_seqZ in Hi. apply Hpass. lia.
Qed.

Lemma validate_first_mismatch_witness :
  validate demo_env 2 (Ptr 1) (Ptr 2) (Ptr 3) demo_host
  = Return EXIT_FAILURE
      (add_events demo_host
         (checked [one; zero] [zero; one] [one; zero] (seqZ 0 1)
          ++ report demo_env [one; zero] [zero; one] [one; zero] 1)).
Proof.
  destruct (validate_first_mismatch demo_env 2 (Ptr 1) (Ptr 2) (Ptr 3)
              [one; zero] [zero; one] [one; zero] demo_host)
    as (_ & Hfail & _).
  - reflexivity.
  - reflexivity.
  - reflexivity.
  - lia.
  - simpl. lia.
  - simpl. lia.
  - simpl. lia.
  - destruct (Hfail 1) as (Hrun & _).
    + lia.
    + reflexivity.
    + intros j Hj. assert (j = 0) as -> by lia. reflexivity.
    + exact Hrun.
Defined.

(** *** Rules for the statements of [main] *)

Section Rules.

Context {A : Type} (Q : A -> hstate -> Prop) (R : Z -> hstate -> Prop).

Lemma wp_bind {B : Type} (k : host B) (f : B -> host A) (s : hstate) :
  wp k s (fun b s' => wp (f b) s' Q R) R -> wp (k ≫= f) s Q R.
Proof.
  unfold wp, mbind, host_bind. destruct (k s); auto.
Qed.

Lemma wp_mret (a : A) (s : hstate) : Q a s -> wp (mret a) s Q R.
Proof. auto. Qed.

Lemma wp_return (status : Z) (s : hstate) :
  R status s -> wp (return_ status) s Q R.
Proof. auto. Qed.

End Rules.

Section UnitRules.

Context (Q : unit -> hstate -> Prop) (R : Z -> hstate -> Prop).

Lemma wp_log (e : event) (s : hstate) :
  Q tt (add_events s [e]) -> wp (log e) s Q R.
Proof. auto. Qed.

Lemma wp_when (b : bool) (body : host unit) (s : hstate) :
  (b = true -> wp body s Q R) -> (b = false -> Q tt s) ->
  wp (when b body) s Q R.
Proof.
  intros Ht Hf. destruct b; unfold when; [apply Ht | apply Hf]; reflexivity.
Qed.

(** [if (cond) { fprintf (stderr, ...); return EXIT_FAILURE; }] *)
Lemma wp_check (b : bool) (fmt : string) (args : list arg) (s : hstate) :
  (b = true -> R EXIT_FAILURE (add_events s [Efprintf stderr fmt args])) ->
  (b = false -> Q tt s) ->
  wp (when b (fprintf stderr fmt args;; return_ EXIT_FAILURE)) s Q R.
Proof.
  intros Ht Hf. destruct b; unfold when; [apply Ht | apply Hf]; reflexivity.
Qed.

End UnitRules.

Section CallRules.

Context (R : Z -> hstate -> Prop).

Lemma wp_malloc (Q : ptr -> hstate -> Prop) (env : Env) (ok : bool)
    (bytes : Z) (s : hstate) :
  (ok = true ->
   Q (Ptr (next_block s))
     {| hmem := <[next_block s := uninitialized env (next_block s) bytes]> (hmem s);
        dmem := dmem s; next_block := Pos.succ (next_block s);
        last_error := last_error s;
        events := events s ++ [Emalloc bytes (Ptr (next_block s))] |}) ->
  (ok = false -> Q NULL (add_events s [Emalloc bytes NULL])) ->
  wp (malloc env ok bytes) s Q R.
Proof.
  intros Ht Hf. destruct ok; [apply Ht | apply Hf]; reflexivity.
Qed.

Lemma wp_cudaMalloc (Q : cudaError_t * ptr -> hstate -> Prop) (env : Env)
    (r : cudaError_t) (p : ptr) (bytes : Z) (s : hstate) :
  (r = cudaSuccess ->
   Q (r, Ptr (next_block s))
     {| hmem := hmem s;
        dmem := <[next_block s := uninitialized env (next_block s) bytes]> (dmem s);
        next_block := Pos.succ (next_block s);
        last_error := last_error s;
        events := events s ++ [EcudaMalloc bytes r (Ptr (next_block s))] |}) ->
  (r <> cudaSuccess ->
   Q (r, p)
     {| hmem := hmem s; dmem := dmem s; next_block := next_block s;
        last_error := r; events := events s ++ [EcudaMalloc bytes r p] |}) ->
  wp (cudaMalloc env r p bytes) s Q R.
Proof.
  intros Ht Hf. unfold cudaMalloc.
  destruct (Z.eqb_spec r cudaSuccess) as [E | E]; [apply Ht | apply Hf]; exact E.
Qed.

Lemma wp_cudaMemcpy (Q : cudaError_t -> hstate -> Prop) (r : cudaError_t)
    (dst src : ptr) (bytes : Z) (kind : cudaMemcpyKind) (s : hstate) :
  (forall r' s',
     events s' = events s ++ [EcudaMemcpy dst src bytes kind r'] ->
     shape (hmem s') = shape (hmem s) ->
     (r' = cudaSuccess -> last_error s' = last_error s) ->
     Q r' s') ->
  wp (cudaMemcpy r dst src bytes kind) s Q R.
Proof.
  intros H. unfold cudaMemcpy, wp, mbind, host_bind, get.
  destruct (r =? cudaSuccess) eqn:Er.
  - destruct kind.
    + destruct (copy_block (hmem s) (dmem s) dst src bytes) as [d'|]; simpl.
      * apply H; reflexivity.
      * apply H; [reflexivity | reflexivity | discriminate].
    + destruct (copy_block (dmem s) (hmem s) dst src bytes) as [h'|] eqn:Ec;
        simpl.
      * apply H; try reflexivity. simpl. unfold copy_block in Ec.
        destruct dst as [|d]; [discriminate |].
        destruct (block_of (dmem s) src) as [sbuf|]; simpl in Ec; [| discriminate].
        destruct (hmem s !! d) as [dbuf|] eqn:Ed; simpl in Ec; [| discriminate].
        destruct (Nat.leb_spec (Z.to_nat (bytes / sizeof_real_type)) (length sbuf));
          simpl in Ec; [| discriminate].
        destruct (Nat.leb_spec (Z.to_nat (bytes / sizeof_real_type)) (length dbuf));
          simpl in Ec; [| discriminate].
        injection Ec as <-. unfold shape. rewrite fmap_insert.
        apply insert_id. rewrite lookup_fmap, Ed. simpl. f_equal.
        rewrite length_app, length_take, length_drop. lia.
      * apply H; [reflexivity | reflexivity | discriminate].
  - simpl. apply H; [reflexivity | reflexivity |].
    intros ->. discriminate.
Qed.

Lemma wp_cudaGetLastError (Q : cudaError_t -> hstate -> Prop) (s : hstate) :
  (forall s',
     events s' = events s ++ [EcudaGetLastError (last_error s)] ->
     hmem s' = hmem s -> last_error s' = cudaSuccess ->
     Q (last_error s) s') ->
  wp cudaGetLastError s Q R.
Proof. intros H. apply H; reflexivity. Qed.

Lemma wp_launch (Q : unit -> hstate -> Prop) (env : Env) (blocks threads : Z)
    (a b c : ptr) (count : Z) (s : hstate) :
  (forall s',
     events s' = events s ++ [Elaunch blocks threads] ->
     hmem s' = hmem s -> Q tt s') ->
  wp (launch env blocks threads a b c count) s Q R.
Proof.
  intros H. unfold launch, wp, mbind, host_bind, log, get.
  destruct (launched env =? cudaSuccess); [| apply H; reflexivity].
  destruct (run_lanes _ threads a b c count _) as [t [[[] d']|]];
    apply H; reflexivity.
Qed.

Lemma wp_cudaDeviceSynchronize (Q : cudaError_t -> hstate -> Prop) (env : Env)
    (s : hstate) :
  (forall s',
     events s' = events s ++ [EcudaDeviceSynchronize (synchronized env)] ->
     hmem s' = hmem s -> Q (synchronized env) s') ->
  wp (cudaDeviceSynchronize env) s Q R.
Proof.
  intros H. unfold cudaDeviceSynchronize, wp, mbind, host_bind.
  destruct (synchronized env =? cudaSuccess); apply H; reflexivity.
Qed.

Lemma wp_cudaFree (Q : cudaError_t -> hstate -> Prop) (r : cudaError_t)
    (p : ptr) (s : hstate) :
  (forall r' s',
     events s' = events s ++ [EcudaFree p r'] -> hmem s' = hmem s -> Q r' s') ->
  wp (cudaFree r p) s Q R.
Proof.
  intros H. unfold cudaFree, wp, mbind, host_bind, get.
  match goal with |- context [if ?c =? cudaSuccess then _ else _] =>
    destruct (c =? cudaSuccess) end.
  - destruct p; apply H; reflexivity.
  - apply H; reflexivity.
Qed.

Lemma wp_free (Q : unit -> hstate -> Prop) (p : ptr) (s : hstate) :
  (forall s', events s' = events s ++ [Efree p] -> Q tt s') ->
  wp (free p) s Q R.
Proof.
  intros H. unfold free, wp, mbind, host_bind, get.
  destruct p; apply H; reflexivity.
Qed.

End CallRules.

Lemma shape_lookup (m : memory) (b : positive) (n : nat) :
  shape m !! b = Some n -> exists buf, m !! b = Some buf /\ length buf = n.
Proof.
  unfold shape. rewrite lookup_fmap. destruct (m !! b) as [buf|]; simpl.
  - intros [= <-]. exists buf. auto.
  - discriminate.
Qed.

Lemma hstore_ok (s : hstate) (b : positive) (n : nat) (i : Z) (x : real_type) :
  shape (hmem s) !! b = Some n -> 0 <= i < Z.of_nat n ->
  exists s', hstore (Ptr b) i x s = Next tt s'
    /\ events s' = events s /\ shape (hmem s') = shape (hmem s)
    /\ last_error s' = last_error s.
Proof.
  intros Hb Hi. destruct (shape_lookup _ _ _ Hb) as (buf & Hbuf & Hlen).
  unfold hstore, mbind, host_bind, get.
  rewrite (write_Some (hmem s) b buf) by (auto; lia).
  eexists. split; [reflexivity |]. simpl.
  split; [reflexivity |]. split; [| reflexivity].
  unfold shape. rewrite fmap_insert. apply insert_id.
  rewrite lookup_fmap, Hbuf. simpl. f_equal. symmetry. apply length_insert.
Qed.

Lemma fill_ok (env : Env) (ba bb : positive) (na nb : nat) (range : list Z) :
  forall s : hstate,
  shape (hmem s) !! ba = Some na -> shape (hmem s) !! bb = Some nb ->
  (forall i, i ∈ range -> 0 <= i < Z.of_nat na /\ i < Z.of_nat nb) ->
  exists s',
    for_ range (fun i =>
      hstore (Ptr ba) i (mul (sin env (real_of_size_t i)) (sin env (real_of_size_t i)));;
      hstore (Ptr bb) i (mul (cos env (real_of_size_t i)) (cos env (real_of_size_t i)))) s
    = Next tt s'
    /\ events s' = events s /\ shape (hmem s') = shape (hmem s)
    /\ last_error s' = last_error s.
Proof.
  induction range as [| i rest IH]; intros s Ha Hb Hin.
  - exists s. simpl. auto.
  - destruct (Hin i) as [Hia Hib]; [apply elem_of_cons; auto |].
    destruct (hstore_ok s ba na i
                (mul (sin env (real_of_size_t i)) (sin env (real_of_size_t i)))
                Ha Hia) as (s1 & Hs1 & He1 & Hh1 & Hl1).
    destruct (hstore_ok s1 bb nb i
                (mul (cos env (real_of_size_t i)) (cos env (real_of_size_t i))))
      as (s2 & Hs2 & He2 & Hh2 & Hl2); [rewrite Hh1; exact Hb | lia |].
    destruct (IH s2) as (s' & Hs' & He' & Hh' & Hl').
    + rewrite Hh2, Hh1. exact Ha.
    + rewrite Hh2, Hh1. exact Hb.
    + intros j Hj. apply Hin. apply elem_of_cons. auto.
    + exists s'. split; [| repeat split; congruence].
      simpl. erewrite bind_Next; [exact Hs' |].
      erewrite bind_Next; [exact Hs2 | exact Hs1].
Qed.

Lemma wp_fill (Q : unit -> hstate -> Prop) (R : Z -> hstate -> Prop)
    (env : Env) (count : Z) (ba bb : positive) (na nb : nat) (s : hstate) :
  shape (hmem s) !! ba = Some na -> shape (hmem s) !! bb = Some nb ->
  count <= Z.of_nat na -> count <= Z.of_nat nb ->
  (forall s', events s' = events s -> shape (hmem s') = shape (hmem s) ->
              last_error s' = last_error s -> Q tt s') ->
  wp (fill env count (Ptr ba) (Ptr bb)) s Q R.
Proof.
  intros Ha Hb La Lb H.
  destruct (fill_ok env ba bb na nb (seqZ 0 count) s Ha Hb)
    as (s' & Hs' & He & Hh & Hl).
  - intros i Hi. apply elem_of_seqZ in Hi. lia.
  - unfold wp, fill. rewrite Hs'. apply H; assumption.
Qed.

Lemma validate_total (env : Env) (host_a host_b host_c : ptr)
    (abuf bbuf cbuf : list real_type) (range : list Z) :
  forall s : hstate,
  block_of (hmem s) host_a = Some abuf ->
  block_of (hmem s) host_b = Some bbuf ->
  block_of (hmem s) host_c = Some cbuf ->
  (forall i, i ∈ range ->
     0 <= i < Z.of_nat (length abuf) /\ i < Z.of_nat (length bbuf)
     /\ i < Z.of_nat (length cbuf)) ->
  for_ range (validate_at env host_a host_b host_c) s
  = Next tt (add_events s (checked abuf bbuf cbuf range))
  \/ exists pre k,
       for_ range (validate_at env host_a host_b host_c) s
       = Return EXIT_FAILURE
           (add_events s (checked abuf bbuf cbuf pre
                          ++ report env abuf bbuf cbuf k)).
Proof.
  induction range as [| i rest IH]; intros s Ha Hb Hc Hin.
  - left. simpl. unfold checked. simpl. rewrite add_events_nil. reflexivity.
  - destruct (Hin i) as (Hia & Hib & Hic); [apply elem_of_cons; auto |].
    pose proof (validate_at_spec env host_a host_b host_c abuf bbuf cbuf s i
                  Ha Hb Hc Hia Hib Hic) as Hat.
    destruct (close_at abuf bbuf cbuf i) as [[|]|] eqn:Hclose.
    + destruct (IH (add_events s (checked abuf bbuf cbuf [i])) Ha Hb Hc)
        as [Hok | (pre & k & Hko)].
      * intros j Hj. apply Hin. apply elem_of_cons. auto.
      * left. simpl. erewrite bind_Next; [| exact Hat].
        rewrite Hok, add_events_app. reflexivity.
      * right. exists (i :: pre), k. simpl. erewrite bind_Next; [| exact Hat].
        rewrite Hko, add_events_app. reflexivity.
    + right. exists [], i. simpl. erewrite bind_Return; [| exact Hat].
      reflexivity.
    + exfalso. exact (close_at_not_None abuf bbuf cbuf i Hclose).
Qed.

Lemma wp_validate (Q : unit -> hstate -> Prop) (R : Z -> hstate -> Prop)
    (env : Env) (count : Z) (ba bb bc : positive) (na nb nc : nat)
    (s : hstate) :
  shape (hmem s) !! ba = Some na -> shape (hmem s) !! bb = Some nb ->
  shape (hmem s) !! bc = Some nc ->
  count <= Z.of_nat na -> count <= Z.of_nat nb -> count <= Z.of_nat nc ->
  (forall abuf bbuf cbuf,
     Q tt (add_events s (checked abuf bbuf cbuf (seqZ 0 count)))) ->
  (forall abuf bbuf cbuf pre k,
     R EXIT_FAILURE
       (add_events s (checked abuf bbuf cbuf pre ++ report env abuf bbuf cbuf k))) ->
  wp (validate env count (Ptr ba) (Ptr bb) (Ptr bc)) s Q R.
Proof.
  intros Ha Hb Hc La Lb Lc HQ HR.
  destruct (shape_lookup _ _ _ Ha) as (abuf & Hpa & Hla).
  destruct (shape_lookup _ _ _ Hb) as (bbuf & Hpb & Hlb).
  destruct (shape_lookup _ _ _ Hc) as (cbuf & Hpc & Hlc).
  unfold wp, validate.
  destruct (validate_total env (Ptr ba) (Ptr bb) (Ptr bc) abuf bbuf cbuf
              (seqZ 0 count) s Hpa Hpb Hpc) as [Hok | (pre & k & Hko)].
  - intros i Hi. apply elem_of_seqZ in Hi. lia.
  - rewrite Hok. apply HQ.
  - rewrite Hko. apply HR.
Qed.

(** *** The runs of [main] *)

Lemma fail_shape (s s' : hstate) (e : event) (fmt : string) (args : list arg) :
  events s' = events s ++ [e] ->
  forallb quiet (events s) = true -> failed e = true -> is_line fmt = true ->
  (failed_before_release e = true ->
   forallb (fun x => negb (is_release x)) (events s) = true) ->
  run_shape (events (add_events s' [Efprintf stderr fmt args])) EXIT_FAILURE.
Proof.
  intros He Hq Hf Hl Hr. simpl. rewrite He. apply run_failure; assumption.
Qed.


Lemma quiet_snoc (s s' : hstate) (e : event) :
  events s' = events s ++ [e] -> quiet e = true ->
  forallb quiet (events s) = true -> forallb quiet (events s') = true.
Proof.
  intros He Hq H. rewrite He, forallb_app, H. simpl. rewrite Hq. reflexivity.
Qed.

Lemma unreleased_snoc (s s' : hstate) (e : event) :
  events s' = events s ++ [e] -> is_release e = false ->
  forallb (fun x => negb (is_release x)) (events s) = true ->
  forallb (fun x => negb (is_release x)) (events s') = true.
Proof.
  intros He Hq H. rewrite He, forallb_app, H. simpl. rewrite Hq. reflexivity.
Qed.

Lemma quiet_checked (abuf bbuf cbuf : list real_type) (range : list Z) :
  forallb quiet (checked abuf bbuf cbuf range) = true.
Proof. induction range as [| i rest IH]; [reflexivity | exact IH]. Qed.

Lemma unreleased_checked (abuf bbuf cbuf : list real_type) (range : list Z) :
  forallb (fun x => negb (is_release x)) (checked abuf bbuf cbuf range) = true.
Proof. induction range as [| i rest IH]; [reflexivity | exact IH]. Qed.

Lemma shape_uninitialized (env : Env) (b : positive) (bytes : Z) :
  length (uninitialized env b bytes) = Z.to_nat (bytes / sizeof_real_type).
Proof. unfold uninitialized. rewrite length_fmap. apply length_seq. Qed.

Lemma shape_insert_eq (h : memory) (b : positive) (buf : list real_type) :
  shape (<[b := buf]> h) !! b = Some (length buf).
Proof. unfold shape. rewrite fmap_insert. apply lookup_insert_eq. Qed.

Lemma shape_insert_ne (h : memory) (b b' : positive) (buf : list real_type) :
  b <> b' -> shape (<[b := buf]> h) !! b' = shape h !! b'.
Proof. intros H. unfold shape. rewrite fmap_insert. apply lookup_insert_ne, H. Qed.

Lemma check_passed (r : cudaError_t) :
  negb (r =? cudaSuccess) = false -> r = cudaSuccess.
Proof. intros H. apply negb_false_iff, Z.eqb_eq in H. exact H. Qed.

Lemma success_shape (s : hstate) :
  forallb quiet (events s) = true ->
  run_shape (events (add_events s [Efprintf stdout (msg "Done.") []]))
            EXIT_SUCCESS.
Proof. intros Hq. simpl. apply run_success. exact Hq. Qed.

Lemma mismatch_shape (env : Env) (s : hstate) (abuf bbuf cbuf : list real_type)
    (pre : list Z) (k : Z) :
  forallb quiet (events s) = true ->
  forallb (fun x => negb (is_release x)) (events s) = true ->
  run_shape
    (events (add_events s (checked abuf bbuf cbuf pre
                           ++ report env abuf bbuf cbuf k)))
    EXIT_FAILURE.
Proof.
  intros Hq Hn. simpl. unfold report.
  rewrite (app_assoc (events s)).
  change (?l ++ [?e; ?f]) with (l ++ [e] ++ [f]).
  rewrite (app_assoc _ [_] [_]).
  apply run_failure.
  - rewrite forallb_app, Hq. apply quiet_checked.
  - reflexivity.
  - reflexivity.
  - intros _. rewrite forallb_app, Hn. apply unreleased_checked.
Qed.

(** A call that succeeded: the facts about the state move to the new state. *)
Ltac advance He Hq Hn :=
  let Hq' := fresh "Hq" in
  let Hn' := fresh "Hn" in
  pose proof (quiet_snoc _ _ _ He eq_refl Hq) as Hq';
  pose proof (unreleased_snoc _ _ _ He eq_refl Hn) as Hn';
  clear Hq Hn He.

(** [main] never crashes, and every run of it has one of the two shapes. *)
Lemma main_run (env : Env) :
  wp (main env) initial (fun _ _ => False)
     (fun status s => run_shape (events s) status).
Proof.
  unfold main. cbv zeta.
  change (u64 (65536 * sizeof_real_type)) with 524288.
  apply wp_bind, wp_malloc; intros Hma.
  2: { apply wp_bind, wp_check; [intros _ | discriminate].
       eapply fail_shape;
         [reflexivity | reflexivity | reflexivity | reflexivity | discriminate]. }
  apply wp_bind, wp_check; [discriminate | intros _].
  apply wp_bind, wp_malloc; intros Hmb.
  2: { apply wp_bind, wp_check; [intros _ | discriminate].
       eapply fail_shape;
         [reflexivity | reflexivity | reflexivity | reflexivity | discriminate]. }
  apply wp_bind, wp_check; [discriminate | intros _].
  apply wp_bind, wp_malloc; intros Hmc.
  2: { apply wp_bind, wp_check; [intros _ | discriminate].
       eapply fail_shape;
         [reflexivity | reflexivity | reflexivity | reflexivity | discriminate]. }
  apply wp_bind, wp_check; [discriminate | intros _].
  cbn [next_block initial hmem dmem events last_error Pos.succ app].
  apply wp_bind, wp_cudaMalloc; intros Hda; cbv beta iota.
  2: { apply wp_bind, wp_check; intros Hc.
       - eapply fail_shape;
           [reflexivity | reflexivity | exact Hc | reflexivity | reflexivity].
       - apply negb_false_iff, Z.eqb_eq in Hc. contradiction. }
  rewrite Hda.
  apply wp_bind, wp_check; [discriminate | intros _].
  apply wp_bind, wp_cudaMalloc; intros Hdb; cbv beta iota.
  2: { apply wp_bind, wp_check; intros Hc.
       - eapply fail_shape;
           [reflexivity | reflexivity | exact Hc | reflexivity | reflexivity].
       - apply negb_false_iff, Z.eqb_eq in Hc. contradiction. }
  rewrite Hdb.
  apply wp_bind, wp_check; [discriminate | intros _].
  apply wp_bind, wp_cudaMalloc; intros Hdc; cbv beta iota.
  2: { apply wp_bind, wp_check; intros Hc.
       - eapply fail_shape;
           [reflexivity | reflexivity | exact Hc | reflexivity | reflexivity].
       - apply negb_false_iff, Z.eqb_eq in Hc. contradiction. }
  rewrite Hdc.
  apply wp_bind, wp_check; [discriminate | intros _].
  cbn [next_block initial hmem dmem events last_error app].
  change (Pos.succ 1) with 2%positive. change (Pos.succ 2) with 3%positive.
  change (Pos.succ 3) with 4%positive. change (Pos.succ 4) with 5%positive.
  change (Pos.succ 5) with 6%positive. change (Pos.succ 6) with 7%positive.
  match goal with |- wp _ ?s _ _ => set (s0 := s) end.
  set (N := Z.to_nat (524288 / sizeof_real_type)).
  assert (HN : 65536 <= Z.of_nat N).
  { unfold N. change (524288 / sizeof_real_type) with 65536. lia. }
  assert (Hq : forallb quiet (events s0) = true) by reflexivity.
  assert (Hn : forallb (fun x => negb (is_release x)) (events s0) = true)
    by reflexivity.
  assert (Herr : last_error s0 = cudaSuccess) by reflexivity.
  assert (H1 : shape (hmem s0) !! 1%positive = Some N).
  { unfold s0. cbn [hmem].
    rewrite (shape_insert_ne _ 3 1), (shape_insert_ne _ 2 1) by discriminate.
    rewrite shape_insert_eq, shape_uninitialized. reflexivity. }
  assert (H2 : shape (hmem s0) !! 2%positive = Some N).
  { unfold s0. cbn [hmem]. rewrite (shape_insert_ne _ 3 2) by discriminate.
    rewrite shape_insert_eq, shape_uninitialized. reflexivity. }
  assert (H3 : shape (hmem s0) !! 3%positive = Some N).
  { unfold s0. cbn [hmem].
    rewrite shape_insert_eq, shape_uninitialized. reflexivity. }
  clearbody s0.
  (* the inputs *)
  apply wp_bind, (wp_fill _ _ env 65536 1 2 N N); try assumption.
  intros s1 He Hh Hl. rewrite <- He in Hq, Hn. rewrite <- Hh in H1, H2, H3.
  rewrite <- Hl in Herr. clear s0 He Hh Hl.
  (* the transfers to the device *)
  apply wp_bind, wp_cudaMemcpy; intros r s2 He Hh Hl.
  apply wp_bind, wp_check; intros Hc.
  { eapply fail_shape; [exact He | exact Hq | exact Hc | reflexivity |
                        intros _; exact Hn]. }
  apply check_passed in Hc. subst r.
  rewrite <- Hh in H1, H2, H3. rewrite <- (Hl eq_refl) in Herr.
  advance He Hq Hn. clear s1 Hh Hl.
  apply wp_bind, wp_cudaMemcpy; intros r s3 He Hh Hl.
  apply wp_bind, wp_check; intros Hc.
  { eapply fail_shape; [exact He | exact Hq0 | exact Hc | reflexivity |
                        intros _; exact Hn0]. }
  apply check_passed in Hc. subst r.
  rewrite <- Hh in H1, H2, H3. rewrite <- (Hl eq_refl) in Herr.
  advance He Hq0 Hn0. clear s2 Hh Hl.
  (* the launch *)
  apply wp_bind, wp_cudaGetLastError; intros s4 He Hh Hl.
  rewrite Herr in He. rewrite <- Hh in H1, H2, H3.
  advance He Hq Hn. clear s3 Hh Hl Herr.
  apply wp_bind, wp_launch; intros s5 He Hh.
  rewrite <- Hh in H1, H2, H3.
  advance He Hq0 Hn0. clear s4 Hh.
  apply wp_bind, wp_cudaDeviceSynchronize; intros s6 He Hh.
  rewrite <- Hh in H1, H2, H3.
  advance He Hq Hn. clear s5 Hh.
  apply wp_bind, wp_cudaGetLastError; intros s7 He Hh Hl.
  apply wp_bind, wp_check; intros Hc.
  { eapply fail_shape; [exact He | exact Hq0 | exact Hc | reflexivity |
                        intros _; exact Hn0]. }
  apply check_passed in Hc. rewrite Hc in He.
  rewrite <- Hh in H1, H2, H3.
  advance He Hq0 Hn0. clear s6 Hh Hc.
  (* the transfer to the host *)
  apply wp_bind, wp_cudaMemcpy; intros r s8 He Hh _.
  apply wp_bind, wp_check; intros Hc.
  { eapply fail_shape; [exact He | exact Hq | exact Hc | reflexivity |
                        intros _; exact Hn]. }
  apply check_passed in Hc. subst r.
  rewrite <- Hh in H1, H2, H3.
  advance He Hq Hn. clear s7 Hh Hl.
  (* the validation *)
  apply wp_bind, (wp_validate _ _ env 65536 1 2 3 N N N); try assumption.
  2: { intros abuf bbuf cbuf pre k. apply mismatch_shape; assumption. }
  intros abuf bbuf cbuf.
  assert (Hq : forallb quiet
                 (events (add_events s8 (checked abuf bbuf cbuf (seqZ 0 65536))))
               = true).
  { cbn [events add_events]. rewrite forallb_app, Hq0. apply quiet_checked. }
  clear Hq0 Hn0 H1 H2 H3.
  generalize dependent (add_events s8 (checked abuf bbuf cbuf (seqZ 0 65536))).
  clear s8. intros s9 Hq.
  (* the releases *)
  apply wp_bind, wp_cudaFree; intros r s10 He _.
  apply wp_bind, wp_check; intros Hc.
  { eapply fail_shape; [exact He | exact Hq | exact Hc | reflexivity |
                        discriminate]. }
  apply check_passed in Hc. subst r.
  pose proof (quiet_snoc _ _ _ He eq_refl Hq) as Hq0. clear s9 He Hq.
  apply wp_bind, wp_cudaFree; intros r s11 He _.
  apply wp_bind, wp_check; intros Hc.
  { eapply fail_shape; [exact He | exact Hq0 | exact Hc | reflexivity |
                        discriminate]. }
  apply check_passed in Hc. subst r.
  pose proof (quiet_snoc _ _ _ He eq_refl Hq0) as Hq. clear s10 He Hq0.
  apply wp_bind, wp_cudaFree; intros r s12 He _.
  apply wp_bind, wp_check; intros Hc.
  { eapply fail_shape; [exact He | exact Hq | exact Hc | reflexivity |
                        discriminate]. }
  apply check_passed in Hc. subst r.
  pose proof (quiet_snoc _ _ _ He eq_refl Hq) as Hq0. clear s11 He Hq.
  apply wp_bind, wp_free; intros s13 He.
  pose proof (quiet_snoc _ _ _ He eq_refl Hq0) as Hq. clear s12 He Hq0.
  apply wp_bind, wp_free; intros s14 He.
  pose proof (quiet_snoc _ _ _ He eq_refl Hq) as Hq0. clear s13 He Hq.
  apply wp_bind, wp_free; intros s15 He.
  pose proof (quiet_snoc _ _ _ He eq_refl Hq0) as Hq. clear s14 He Hq0.
  apply wp_bind, wp_log, wp_return, success_shape. exact Hq.
Qed.




Lemma failed_before_release_failed (e : event) :
  failed_before_release e = true -> failed e = true /\ is_release e = false.
Proof. destruct e; try discriminate; simpl; auto. Qed.

(** *** The calls of a run, in order, and the calls the environment fails *)

Lemma seqZ_split (n : Z) (pre post : list Z) (k : Z) :
  seqZ 0 n = pre ++ k :: post ->
  pre = seqZ 0 k /\ 0 <= k < n /\ post = seqZ (Z.succ k) (Z.pred (n - k)).
Proof.
  intros H.
  assert (Hk : seqZ 0 n !! length pre = Some k).
  { rewrite H. apply list_lookup_middle. reflexivity. }
  apply lookup_seqZ in Hk. destruct Hk as [Hk Hlt].
  assert (Hsplit : seqZ 0 n = seqZ 0 k ++ k :: seqZ (Z.succ k) (Z.pred (n - k))).
  { replace n with (k + (n - k)) at 1 by lia.
    rewrite seqZ_app by lia. f_equal. simpl.
    rewrite (seqZ_cons k) by lia. reflexivity. }
  rewrite Hsplit in H. apply app_inj_1 in H.
  - destruct H as [H1 H2]. injection H2 as H2. split; [auto |]. split; [lia | auto].
  - rewrite length_seqZ. lia.
Qed.







Section StatusRules.

Context (R : Z -> hstate -> Prop).





End StatusRules.



(** *** A run with a library and a device that work *)

Lemma eqb_refl (x : real_type) : eqb x x = negb (is_nan x).
Proof.
  unfold eqb, SFeqb.
  destruct x as [s | [] | | [] m e]; simpl; try reflexivity;
    rewrite Z.compare_refl;
    change (Pos.compare_cont Eq m m) with (m ?= m)%positive;
    rewrite Pos.compare_refl; reflexivity.
Qed.

Lemma stored_snoc (f : Z -> real_type) (buf : list real_type) (range : list Z)
    (i : Z) :
  stored f buf (range ++ [i]) = <[Z.to_nat i := f i]> (stored f buf range).
Proof. unfold stored. rewrite foldl_app. reflexivity. Qed.

Lemma stored_prefix (f : Z -> real_type) (buf : list real_type) (k : nat) :
  (k <= length buf)%nat ->
  stored f buf (seqZ 0 (Z.of_nat k)) = (f <$> seqZ 0 (Z.of_nat k)) ++ drop k buf.
Proof.
  induction k as [| k IH]; intros Hk.
  - reflexivity.
  - rewrite Nat2Z.inj_succ, <- Z.add_1_r, seqZ_app by lia.
    change (seqZ (0 + Z.of_nat k) 1) with [0 + Z.of_nat k].
    rewrite Z.add_0_l, stored_snoc, IH by lia.
    rewrite fmap_app, <- app_assoc. cbn [fmap list_fmap app].
    rewrite Nat2Z.id.
    destruct (lookup_lt_is_Some_2 buf k ltac:(lia)) as [x Hx].
    rewrite (drop_S _ _ _ Hx).
    rewrite insert_app_r_alt by (rewrite length_fmap, length_seqZ; lia).
    rewrite length_fmap, length_seqZ.
    replace (k - Z.to_nat (Z.of_nat k))%nat with 0%nat by lia.
    reflexivity.
Qed.

Lemma stored_all (f : Z -> real_type) (buf : list real_type) (n : Z) :
  0 <= n -> length buf = Z.to_nat n ->
  stored f buf (seqZ 0 n) = f <$> seqZ 0 n.
Proof.
  intros Hn Hl.
  rewrite <- (Z2Nat.id n) by exact Hn.
  rewrite stored_prefix by lia.
  rewrite drop_ge by lia. apply app_nil_r.
Qed.

Lemma zip_with_fmap_same {A B C D : Type} (f : B -> C -> D) (g : A -> B)
    (h : A -> C) (l : list A) :
  zip_with f (g <$> l) (h <$> l) = (fun x => f (g x) (h x)) <$> l.
Proof. induction l as [| x l IH]; [reflexivity |]. cbn. f_equal. exact IH. Qed.

Lemma sums_zip (env : Env) :
  zip_with add (inputs_a env) (inputs_b env) = sums env.
Proof.
  exact (zip_with_fmap_same add (input_a env) (input_b env) (seqZ 0 65536)).
Qed.

Lemma lookup_total_table (f : Z -> real_type) (n i : Z) :
  0 <= i < n -> (f <$> seqZ 0 n) !!! Z.to_nat i = f i.
Proof.
  intros Hi. apply list_lookup_total_correct.
  rewrite list_lookup_fmap, (proj2 (lookup_seqZ 0 n (Z.to_nat i) i)); [reflexivity |].
  lia.
Qed.

Lemma length_table (f : Z -> real_type) (n : Z) :
  length (f <$> seqZ 0 n) = Z.to_nat n.
Proof. rewrite length_fmap. apply length_seqZ. Qed.

Lemma length_inputs_a (env : Env) : length (inputs_a env) = Z.to_nat 65536.
Proof. apply length_table. Qed.

Lemma length_inputs_b (env : Env) : length (inputs_b env) = Z.to_nat 65536.
Proof. apply length_table. Qed.

Lemma length_sums (env : Env) : length (sums env) = Z.to_nat 65536.
Proof. apply length_table. Qed.

Lemma length_uninitialized (env : Env) (b : positive) (bytes : Z) :
  length (uninitialized env b bytes) = Z.to_nat (bytes / sizeof_real_type).
Proof. unfold uninitialized. rewrite length_fmap. apply length_seq. Qed.

(** The comparison of a sum with itself, at the tolerances of [main]. *)
Lemma close_at_sums (env : Env) (i : Z) :
  0 <= i < 65536 ->
  close_at (inputs_a env) (inputs_b env) (sums env) i
  = Some (negb (is_nan (sum_at env i))).
Proof.
  intros Hi. unfold close_at, expected_at, actual_at, inputs_a, inputs_b, sums.
  rewrite !lookup_total_table by exact Hi.
  fold (sum_at env i). unfold isClose.
  change (negb (geb lit_1e_8 zero)) with false.
  change (negb (geb lit_1e_16 zero)) with false. cbv iota.
  rewrite eqb_refl. destruct (sum_at env i) as [s | s | | s m e]; reflexivity.
Qed.

(** The statements of [main], when they succeed. *)

Lemma wp_Next {A : Type} (Q : A -> hstate -> Prop) (R : Z -> hstate -> Prop)
    (k : host A) (s s' : hstate) (a : A) :
  k s = Next a s' -> Q a s' -> wp k s Q R.
Proof. intros H HQ. unfold wp. rewrite H. exact HQ. Qed.

Lemma wp_Return {A : Type} (Q : A -> hstate -> Prop) (R : Z -> hstate -> Prop)
    (k : host A) (s s' : hstate) (status : Z) :
  k s = Return status s' -> R status s' -> wp k s Q R.
Proof. intros H HR. unfold wp. rewrite H. exact HR. Qed.

Lemma hstore_run (s : hstate) (b : positive) (buf : list real_type) (i : Z)
    (x : real_type) :
  hmem s !! b = Some buf -> 0 <= i < Z.of_nat (length buf) ->
  hstore (Ptr b) i x s
  = Next tt {| hmem := <[b := <[Z.to_nat i := x]> buf]> (hmem s);
               dmem := dmem s; next_block := next_block s;
               last_error := last_error s; events := events s |}.
Proof.
  intros Hb Hi. unfold hstore, mbind, host_bind, get.
  rewrite (write_Some (hmem s) b buf) by (auto; lia). reflexivity.
Qed.

Lemma insert_insert_2 (m : memory) (ba bb : positive)
    (x x' y y' : list real_type) :
  ba <> bb ->
  <[bb := y']> (<[ba := x']> (<[bb := y]> (<[ba := x]> m)))
  = <[bb := y']> (<[ba := x']> m).
Proof.
  intros Hne.
  rewrite (insert_insert_ne (<[ba := x]> m) ba bb x' y) by exact Hne.
  rewrite (insert_insert_eq _ bb y' y).
  rewrite (insert_insert_eq m ba x' x). reflexivity.
Qed.

Lemma fill_stores (env : Env) (ba bb : positive) (range : list Z) :
  ba <> bb ->
  forall (s : hstate) (abuf bbuf : list real_type),
  hmem s !! ba = Some abuf -> hmem s !! bb = Some bbuf ->
  (forall i, i ∈ range ->
     0 <= i < Z.of_nat (length abuf) /\ i < Z.of_nat (length bbuf)) ->
  for_ range (fun i =>
    hstore (Ptr ba) i (mul (sin env (real_of_size_t i)) (sin env (real_of_size_t i)));;
    hstore (Ptr bb) i (mul (cos env (real_of_size_t i)) (cos env (real_of_size_t i)))) s
  = Next tt {| hmem := <[bb := stored (input_b env) bbuf range]>
                         (<[ba := stored (input_a env) abuf range]> (hmem s));
               dmem := dmem s; next_block := next_block s;
               last_error := last_error s; events := events s |}.
Proof.
  intros Hne. induction range as [| i rest IH]; intros s abuf bbuf Ha Hb Hin.
  - cbn [for_ stored foldl]. rewrite (insert_id _ ba abuf) by exact Ha.
    rewrite (insert_id _ bb bbuf) by exact Hb. destruct s. reflexivity.
  - destruct (Hin i) as [Hia Hib]; [apply elem_of_cons; auto |].
    cbn [for_].
    erewrite bind_Next.
    2: { erewrite bind_Next; [| apply (hstore_run s ba abuf); [exact Ha | lia]].
         apply (hstore_run _ bb bbuf); cbn [hmem];
           [rewrite lookup_insert_ne by exact Hne; exact Hb | lia]. }
    cbn [hmem dmem next_block last_error events].
    erewrite IH.
    + cbn [hmem dmem next_block last_error events].
      rewrite insert_insert_2 by exact Hne. reflexivity.
    + cbn [hmem]. rewrite lookup_insert_ne by congruence.
      apply lookup_insert_eq.
    + cbn [hmem]. apply lookup_insert_eq.
    + intros j Hj. rewrite !length_insert. apply Hin. apply elem_of_cons. auto.
Qed.

Lemma fill_run (env : Env) (count : Z) (ba bb : positive) (s : hstate)
    (abuf bbuf : list real_type) :
  ba <> bb -> 0 <= count ->
  hmem s !! ba = Some abuf -> hmem s !! bb = Some bbuf ->
  length abuf = Z.to_nat count -> length bbuf = Z.to_nat count ->
  fill env count (Ptr ba) (Ptr bb) s
  = Next tt {| hmem := <[bb := input_b env <$> seqZ 0 count]>
                         (<[ba := input_a env <$> seqZ 0 count]> (hmem s));
               dmem := dmem s; next_block := next_block s;
               last_error := last_error s; events := events s |}.
Proof.
  intros Hne Hc Ha Hb La Lb. unfold fill.
  rewrite (fill_stores env ba bb (seqZ 0 count) Hne s abuf bbuf Ha Hb).
  - rewrite !stored_all by assumption. reflexivity.
  - intros i Hi. apply elem_of_seqZ in Hi. lia.
Qed.

Lemma fill_inputs (env : Env) (ba bb : positive) (s : hstate)
    (abuf bbuf : list real_type) :
  ba <> bb ->
  hmem s !! ba = Some abuf -> hmem s !! bb = Some bbuf ->
  length abuf = Z.to_nat 65536 -> length bbuf = Z.to_nat 65536 ->
  fill env 65536 (Ptr ba) (Ptr bb) s
  = Next tt {| hmem := <[bb := inputs_b env]> (<[ba := inputs_a env]> (hmem s));
               dmem := dmem s; next_block := next_block s;
               last_error := last_error s; events := events s |}.
Proof.
  intros Hne Ha Hb La Lb. unfold inputs_a, inputs_b.
  apply (fill_run env 65536 ba bb s abuf bbuf); try assumption.
  clear. lia.
Qed.

Lemma take_drop_all (sbuf dbuf : list real_type) (n : nat) :
  length sbuf = n -> length dbuf = n -> take n sbuf ++ drop n dbuf = sbuf.
Proof.
  intros Hs Hd. rewrite take_ge, drop_ge by lia. apply app_nil_r.
Qed.

Lemma cudaMemcpy_to_device (s : hstate) (d src : positive)
    (sbuf dbuf : list real_type) (bytes : Z) :
  hmem s !! src = Some sbuf -> dmem s !! d = Some dbuf ->
  length sbuf = Z.to_nat (bytes / sizeof_real_type) ->
  length dbuf = Z.to_nat (bytes / sizeof_real_type) ->
  cudaMemcpy cudaSuccess (Ptr d) (Ptr src) bytes cudaMemcpyHostToDevice s
  = Next cudaSuccess
      {| hmem := hmem s; dmem := <[d := sbuf]> (dmem s);
         next_block := next_block s; last_error := last_error s;
         events := events s ++ [EcudaMemcpy (Ptr d) (Ptr src) bytes
                                  cudaMemcpyHostToDevice cudaSuccess] |}.
Proof.
  intros Hs Hd Ls Ld.
  unfold cudaMemcpy, mbind, host_bind, get.
  change (cudaSuccess =? cudaSuccess) with true. cbv iota.
  unfold copy_block, block_of. rewrite Hs, Hd. cbn [mbind option_bind].
  rewrite Ls, Ld, Nat.leb_refl. cbn [andb mbind option_bind].
  rewrite (take_drop_all sbuf dbuf _ Ls Ld).
  reflexivity.
Qed.

Lemma cudaMemcpy_to_host (s : hstate) (d src : positive)
    (sbuf dbuf : list real_type) (bytes : Z) :
  dmem s !! src = Some sbuf -> hmem s !! d = Some dbuf ->
  length sbuf = Z.to_nat (bytes / sizeof_real_type) ->
  length dbuf = Z.to_nat (bytes / sizeof_real_type) ->
  cudaMemcpy cudaSuccess (Ptr d) (Ptr src) bytes cudaMemcpyDeviceToHost s
  = Next cudaSuccess
      {| hmem := <[d := sbuf]> (hmem s); dmem := dmem s;
         next_block := next_block s; last_error := last_error s;
         events := events s ++ [EcudaMemcpy (Ptr d) (Ptr src) bytes
                                  cudaMemcpyDeviceToHost cudaSuccess] |}.
Proof.
  intros Hs Hd Ls Ld.
  unfold cudaMemcpy, mbind, host_bind, get.
  change (cudaSuccess =? cudaSuccess) with true. cbv iota.
  unfold copy_block, block_of. rewrite Hs, Hd. cbn [mbind option_bind].
  rewrite Ls, Ld, Nat.leb_refl. cbn [andb mbind option_bind].
  rewrite (take_drop_all sbuf dbuf _ Ls Ld).
  reflexivity.
Qed.

(** A launch that covers arrays of exactly [count] elements leaves their
    element-wise sum in [c], whatever the order of the lanes. *)
Lemma launch_run (env : Env) (blocks threads count : Z) (s : hstate)
    (a b cb : positive) (abuf bbuf cbuf : list real_type) :
  launched env = cudaSuccess ->
  schedule env (grid blocks threads) ≡ₚ grid blocks threads ->
  0 < threads -> blocks * threads <= 2 ^ 32 ->
  0 <= count <= blocks * threads ->
  dmem s !! a = Some abuf -> dmem s !! b = Some bbuf ->
  dmem s !! cb = Some cbuf ->
  a <> cb -> b <> cb ->
  length abuf = Z.to_nat count -> length bbuf = Z.to_nat count ->
  length cbuf = Z.to_nat count ->
  launch env blocks threads (Ptr a) (Ptr b) (Ptr cb) count s
  = Next tt
      {| hmem := hmem s; dmem := <[cb := zip_with add abuf bbuf]> (dmem s);
         next_block := next_block s; last_error := last_error s;
         events := events s ++ [Elaunch blocks threads] |}.
Proof.
  intros Hl Hperm Ht Hfit Hcount Ha Hb Hc Hac Hbc La Lb Lc.
  destruct (run_lanes_spec threads (Ptr a) (Ptr b) cb count abuf bbuf
              ltac:(congruence) ltac:(congruence) ltac:(lia) ltac:(lia)
              (schedule env (grid blocks threads))
              (dmem s) cbuf Ha Hb Hc ltac:(lia))
    as (cbuf' & Hrun & Hlen & Hsum & _).
  assert (Heq : cbuf' = zip_with add abuf bbuf).
  { apply list_eq. intros j. rewrite lookup_zip_with.
    destruct (Z.lt_ge_cases (Z.of_nat j) count) as [Hj | Hj].
    - destruct (lane_of_index blocks threads (Z.of_nat j) Ht Hfit) as [Hin Hidx];
        [lia |].
      rewrite <- Hperm in Hin.
      destruct (Hsum _ Hin) as (x & y & Hx & Hy & Hz); [lia |].
      rewrite Hidx, Nat2Z.id in *. rewrite Hx, Hy, Hz. reflexivity.
    - rewrite (lookup_ge_None_2 cbuf') by lia.
      rewrite (lookup_ge_None_2 abuf) by lia. reflexivity. }
  subst cbuf'.
  unfold launch, mbind, host_bind, log, get. rewrite Hl.
  change (cudaSuccess =? cudaSuccess) with true. cbv iota.
  cbn [dmem add_events].
  destruct (run_lanes _ threads (Ptr a) (Ptr b) (Ptr cb) count (dmem s))
    as [t r].
  cbn [snd] in Hrun. subst r. reflexivity.
Qed.

Lemma cudaDeviceSynchronize_run (env : Env) (s : hstate) :
  synchronized env = cudaSuccess ->
  cudaDeviceSynchronize env s
  = Next cudaSuccess (add_events s [EcudaDeviceSynchronize cudaSuccess]).
Proof.
  intros H. unfold cudaDeviceSynchronize. rewrite H. reflexivity.
Qed.

Lemma cudaFree_run (s : hstate) (b : positive) (buf : list real_type) :
  dmem s !! b = Some buf ->
  cudaFree cudaSuccess (Ptr b) s
  = Next cudaSuccess
      {| hmem := hmem s; dmem := delete b (dmem s);
         next_block := next_block s; last_error := last_error s;
         events := events s ++ [EcudaFree (Ptr b) cudaSuccess] |}.
Proof.
  intros H. unfold cudaFree, mbind, host_bind, get.
  change (cudaSuccess =? cudaSuccess) with true. cbv iota.
  destruct (decide (is_Some (dmem s !! b))) as [_ | N];
    [reflexivity | destruct N; eauto].
Qed.

Lemma first_false (ok : Z -> bool) (range : list Z) :
  (forall i, i ∈ range -> ok i = true)
  \/ exists pre k post,
       range = pre ++ k :: post
       /\ (forall i, i ∈ pre -> ok i = true) /\ ok k = false.
Proof.
  induction range as [| i rest IH].
  - left. intros i Hi. apply elem_of_nil in Hi. destruct Hi.
  - destruct (ok i) eqn:Hi.
    + destruct IH as [Hall | (pre & k & post & -> & Hpre & Hk)].
      * left. intros j Hj. apply elem_of_cons in Hj.
        destruct Hj as [-> | Hj]; auto.
      * right. exists (i :: pre), k, post. split; [reflexivity |].
        split; [| exact Hk].
        intros j Hj. apply elem_of_cons in Hj. destruct Hj as [-> | Hj]; auto.
    + right. exists [], i, rest. split; [reflexivity |]. split; [| exact Hi].
      intros j Hj. apply elem_of_nil in Hj. destruct Hj.
Qed.

Lemma cudaGetLastError_run (s : hstate) :
  cudaGetLastError s
  = Next (last_error s)
      {| hmem := hmem s; dmem := dmem s; next_block := next_block s;
         last_error := cudaSuccess;
         events := events s ++ [EcudaGetLastError (last_error s)] |}.
Proof. reflexivity. Qed.

Lemma free_run (s : hstate) (b : positive) :
  free (Ptr b) s
  = Next tt {| hmem := delete b (hmem s); dmem := dmem s;
               next_block := next_block s; last_error := last_error s;
               events := events s ++ [Efree (Ptr b)] |}.
Proof. reflexivity. Qed.

Lemma released (i j k : positive) (x y z x' y' z' : list real_type) :
  i <> j -> i <> k -> j <> k ->
  delete k (delete j (delete i
    (<[k := z']> (<[j := y']> (<[i := x']>
      (<[k := z]> (<[j := y]> (<[i := x]> (∅ : memory))))))))) = ∅.
Proof.
  intros Hij Hik Hjk. apply map_eq. intros n. rewrite lookup_empty.
  destruct (decide (n = k)) as [-> | Hk]; [apply lookup_delete_eq |].
  rewrite lookup_delete_ne by congruence.
  destruct (decide (n = j)) as [-> | Hj]; [apply lookup_delete_eq |].
  rewrite lookup_delete_ne by congruence.
  destruct (decide (n = i)) as [-> | Hi]; [apply lookup_delete_eq |].
  rewrite lookup_delete_ne by congruence.
  rewrite (lookup_insert_ne _ k n) by congruence.
  rewrite (lookup_insert_ne _ j n) by congruence.
  rewrite (lookup_insert_ne _ i n) by congruence.
  rewrite (lookup_insert_ne _ k n) by congruence.
  rewrite (lookup_insert_ne _ j n) by congruence.
  rewrite (lookup_insert_ne _ i n) by congruence.
  apply lookup_empty.
Qed.

Ltac block := cbn [block_of hmem dmem]; reflexivity.

Ltac step_with lemma := apply wp_bind; eapply wp_Next; [apply lemma |];
  cbn [hmem dmem next_block last_error events app add_events].

Lemma wp_cudaFree_ok (Q : cudaError_t -> hstate -> Prop)
    (R : Z -> hstate -> Prop) (b : positive) (buf : list real_type)
    (s : hstate) :
  dmem s !! b = Some buf ->
  (forall s',
     hmem s' = hmem s -> dmem s' = delete b (dmem s) ->
     events s' = events s ++ [EcudaFree (Ptr b) cudaSuccess] ->
     Q cudaSuccess s') ->
  wp (cudaFree cudaSuccess (Ptr b)) s Q R.
Proof.
  intros Hb H. eapply wp_Next; [apply (cudaFree_run s b buf Hb) |].
  apply H; reflexivity.
Qed.

Lemma wp_free_ok (Q : unit -> hstate -> Prop) (R : Z -> hstate -> Prop)
    (b : positive) (s : hstate) :
  (forall s',
     hmem s' = delete b (hmem s) -> dmem s' = dmem s ->
     events s' = events s ++ [Efree (Ptr b)] ->
     Q tt s') ->
  wp (free (Ptr b)) s Q R.
Proof.
  intros H. eapply wp_Next; [apply free_run |]. apply H; reflexivity.
Qed.

Lemma main_on_working_device (env : Env) :
  works env -> wp (main env) initial (fun _ _ => False) (ends_with env).
Proof.
  intros [Hma Hmb Hmc Hda Hdb Hdc Hca Hcb Hl Hs Hperm Hcc Hfa Hfb Hfc].
  unfold main. cbv zeta.
  change (u64 (65536 * sizeof_real_type)) with 524288.
  change (blocks_for 65536 256) with 256.
  rewrite Hma, Hmb, Hmc, Hda, Hdb, Hdc, Hca, Hcb, Hcc, Hfa, Hfb, Hfc.
  apply wp_bind, wp_malloc; [intros _ | discriminate].
  apply wp_bind, wp_check; [discriminate | intros _].
  apply wp_bind, wp_malloc; [intros _ | discriminate].
  apply wp_bind, wp_check; [discriminate | intros _].
  apply wp_bind, wp_malloc; [intros _ | discriminate].
  apply wp_bind, wp_check; [discriminate | intros _].
  cbn [next_block initial hmem dmem events last_error app].
  apply wp_bind, wp_cudaMalloc; [intros _ | intros H; destruct H; reflexivity].
  cbv beta iota.
  apply wp_bind, wp_check; [discriminate | intros _].
  apply wp_bind, wp_cudaMalloc; [intros _ | intros H; destruct H; reflexivity].
  cbv beta iota.
  apply wp_bind, wp_check; [discriminate | intros _].
  apply wp_bind, wp_cudaMalloc; [intros _ | intros H; destruct H; reflexivity].
  cbv beta iota.
  apply wp_bind, wp_check; [discriminate | intros _].
  cbn [next_block initial hmem dmem events last_error app].
  change (Pos.succ 1) with 2%positive. change (Pos.succ 2) with 3%positive.
  change (Pos.succ 3) with 4%positive. change (Pos.succ 4) with 5%positive.
  change (Pos.succ 5) with 6%positive. change (Pos.succ 6) with 7%positive.
  pose proof (length_uninitialized env 1 524288) as L1.
  pose proof (length_uninitialized env 2 524288) as L2.
  pose proof (length_uninitialized env 3 524288) as L3.
  pose proof (length_uninitialized env 4 524288) as L4.
  pose proof (length_uninitialized env 5 524288) as L5.
  pose proof (length_uninitialized env 6 524288) as L6.
  change (524288 / sizeof_real_type) with 65536 in L1, L2, L3, L4, L5, L6.
  set (U1 := uninitialized env 1 524288) in *.
  set (U2 := uninitialized env 2 524288) in *.
  set (U3 := uninitialized env 3 524288) in *.
  set (U4 := uninitialized env 4 524288) in *.
  set (U5 := uninitialized env 5 524288) in *.
  set (U6 := uninitialized env 6 524288) in *.
  clearbody U1 U2 U3 U4 U5 U6.
  pose proof (length_inputs_a env) as LA.
  pose proof (length_inputs_b env) as LB.
  (* the inputs *)
  apply wp_bind. eapply wp_Next.
  { apply (fill_inputs env 1 2 _ U1 U2);
      [discriminate | block | block | exact L1 | exact L2]. }
  cbn [hmem dmem next_block last_error events app add_events].
  (* the transfers to the device *)
  apply wp_bind. eapply wp_Next.
  { apply (cudaMemcpy_to_device _ 4 1 (inputs_a env) U4);
      [block | block | exact LA | exact L4]. }
  cbn [hmem dmem next_block last_error events app add_events].
  apply wp_bind, wp_check; [discriminate | intros _].
  apply wp_bind. eapply wp_Next.
  { apply (cudaMemcpy_to_device _ 5 2 (inputs_b env) U5);
      [block | block | exact LB | exact L5]. }
  cbn [hmem dmem next_block last_error events app add_events].
  apply wp_bind, wp_check; [discriminate | intros _].
  (* the launch *)
  step_with cudaGetLastError_run.
  apply wp_bind. eapply wp_Next.
  { apply (launch_run env 256 256 65536 _ 4 5 6 (inputs_a env) (inputs_b env) U6);
      [exact Hl | exact Hperm | clear; lia | discriminate | clear; lia | block | block | block
      | discriminate | discriminate | exact LA | exact LB | exact L6]. }
  cbn [hmem dmem next_block last_error events app add_events].
  rewrite sums_zip.
  apply wp_bind. eapply wp_Next; [apply cudaDeviceSynchronize_run; exact Hs |].
  cbn [hmem dmem next_block last_error events app add_events].
  step_with cudaGetLastError_run.
  apply wp_bind, wp_check; [discriminate | intros _].
  (* the transfer to the host *)
  pose proof (length_sums env) as LC.
  apply wp_bind. eapply wp_Next.
  { apply (cudaMemcpy_to_host _ 3 6 (sums env) U3);
      [block | block | exact LC | exact L3]. }
  cbn [hmem dmem next_block last_error events app add_events].
  apply wp_bind, wp_check; [discriminate | intros _].
  assert (HZ : Z.of_nat (Z.to_nat 65536) = 65536)
    by (apply Z2Nat.id; clear; lia).
  match goal with |- wp _ ?s _ _ => set (s8 := s) end.
  assert (Hpa : block_of (hmem s8) (Ptr 1) = Some (inputs_a env))
    by (unfold s8; block).
  assert (Hpb : block_of (hmem s8) (Ptr 2) = Some (inputs_b env))
    by (unfold s8; block).
  assert (Hpc : block_of (hmem s8) (Ptr 3) = Some (sums env))
    by (unfold s8; block).
  assert (Hev : events s8 = calls_before_validation env).
  { unfold calls_before_validation. rewrite Hs. reflexivity. }
  assert (Hclose : forall i, 0 <= i < 65536 ->
            close_at (inputs_a env) (inputs_b env) (sums env) i
            = Some (negb (is_nan (sum_at env i))))
    by (intros i Hi; apply close_at_sums; exact Hi).
  destruct (first_false (fun i => negb (is_nan (sum_at env i))) (seqZ 0 65536))
    as [Hall | (pre & k & post & Hr & Hpre & Hk)].
  - (* every element passes *)
    apply wp_bind. eapply wp_Next.
    { unfold validate.
      apply (validate_pass env (Ptr 1) (Ptr 2) (Ptr 3)
               (inputs_a env) (inputs_b env) (sums env) (seqZ 0 65536) s8
               Hpa Hpb Hpc).
      - intros i Hi. apply elem_of_seqZ in Hi. rewrite LA, LB, LC, HZ.
        clear -Hi. lia.
      - intros i Hi. rewrite Hclose by (apply elem_of_seqZ in Hi; clear -Hi; lia).
        f_equal. apply Hall, Hi. }
    match goal with |- wp _ ?s _ _ => set (s9 := s) end.
    assert (Hh : hmem s9
                 = <[3%positive := sums env]>
                     (<[2%positive := inputs_b env]>
                        (<[1%positive := inputs_a env]>
                           (<[3%positive := U3]>
                              (<[2%positive := U2]>
                                 (<[1%positive := U1]> ∅))))))
      by reflexivity.
    assert (Hd : dmem s9
                 = <[6%positive := sums env]>
                     (<[5%positive := inputs_b env]>
                        (<[4%positive := inputs_a env]>
                           (<[6%positive := U6]>
                              (<[5%positive := U5]>
                                 (<[4%positive := U4]> ∅))))))
      by reflexivity.
    assert (He : events s9
                 = calls_before_validation env
                   ++ checked (inputs_a env) (inputs_b env) (sums env)
                        (seqZ 0 65536) ++ [])
      by (unfold s9; cbn [events add_events]; rewrite Hev, app_nil_r;
          reflexivity).
    clearbody s9. clear Hpa Hpb Hpc Hev s8.
    (* the releases *)
    apply wp_bind, (wp_cudaFree_ok _ _ 4 (inputs_a env));
      [rewrite Hd; reflexivity | intros s10 Hh' Hd' He'].
    rewrite Hh in Hh'. rewrite Hd in Hd'. rewrite He, <- !app_assoc in He'.
    cbn [app] in He'. clear s9 Hh Hd He.
    apply wp_bind, wp_check; [discriminate | intros _].
    apply wp_bind, (wp_cudaFree_ok _ _ 5 (inputs_b env));
      [rewrite Hd'; reflexivity | intros s11 Hh Hd He].
    rewrite Hh' in Hh. rewrite Hd' in Hd. rewrite He', <- !app_assoc in He.
    cbn [app] in He. clear s10 Hh' Hd' He'.
    apply wp_bind, wp_check; [discriminate | intros _].
    apply wp_bind, (wp_cudaFree_ok _ _ 6 (sums env));
      [rewrite Hd; reflexivity | intros s12 Hh' Hd' He'].
    rewrite Hh in Hh'. rewrite Hd in Hd'. rewrite He, <- !app_assoc in He'.
    cbn [app] in He'. clear s11 Hh Hd He.
    apply wp_bind, wp_check; [discriminate | intros _].
    apply wp_bind, wp_free_ok; intros s13 Hh Hd He.
    rewrite Hh' in Hh. rewrite Hd' in Hd. rewrite He', <- !app_assoc in He.
    cbn [app] in He. clear s12 Hh' Hd' He'.
    apply wp_bind, wp_free_ok; intros s14 Hh' Hd' He'.
    rewrite Hh in Hh'. rewrite Hd in Hd'. rewrite He, <- !app_assoc in He'.
    cbn [app] in He'. clear s13 Hh Hd He.
    apply wp_bind, wp_free_ok; intros s15 Hh Hd He.
    rewrite Hh' in Hh. rewrite Hd' in Hd. rewrite He', <- !app_assoc in He.
    cbn [app] in He. clear s14 Hh' Hd' He'.
    apply wp_bind, wp_log, wp_return.
    left. split.
    { intros i Hi. apply negb_true_iff. apply Hall. apply elem_of_seqZ.
      clear -Hi. lia. }
    split; [reflexivity |]. split.
    { cbn [events add_events]. rewrite He. unfold success_calls, releases.
      rewrite <- !app_assoc. reflexivity. }
    cbn [hmem dmem add_events]. rewrite Hh, Hd.
    split.
    + apply released; discriminate.
    + apply released; discriminate.
  - (* the first sum that is a NaN *)
    pose proof (seqZ_split _ _ _ _ Hr) as (-> & Hk' & _).
    apply wp_bind. eapply wp_Return.
    { unfold validate. rewrite Hr.
      apply (validate_fail env (Ptr 1) (Ptr 2) (Ptr 3)
               (inputs_a env) (inputs_b env) (sums env) (seqZ 0 k) post k s8
               Hpa Hpb Hpc).
      - intros i Hi. rewrite LA, LB, LC, HZ.
        apply elem_of_app in Hi. destruct Hi as [Hi | Hi].
        + apply elem_of_seqZ in Hi. clear -Hi Hk'. lia.
        + apply list_elem_of_singleton in Hi. subst i. clear -Hk'. lia.
      - intros i Hi. pose proof Hi as Hi'. apply elem_of_seqZ in Hi'.
        rewrite Hclose by (clear -Hi' Hk'; lia).
        f_equal. apply Hpre, Hi.
      - rewrite Hclose by exact Hk'. f_equal. exact Hk. }
    right. exists k. split; [exact Hk' |].
    split; [apply negb_false_iff; exact Hk |].
    split.
    { intros i Hi. apply negb_true_iff. apply Hpre. apply elem_of_seqZ.
      clear -Hi. lia. }
    split; [reflexivity |].
    cbn [events add_events]. rewrite Hev. reflexivity.
Qed.


(** C8: when [main] returns after a device allocation succeeded and a later
    device allocation, a transfer, the kernel or the validation failed, the
    status is not zero and the run has called neither [cudaFree] nor
    [free]. *)
Theorem main_keeps_buffers (env : Env) (status : Z) (s : hstate) :
  main env initial = Return status s ->
  (exists e, e ∈ events s /\ allocated_on_device e = true) ->
  (exists e, e ∈ events s /\ failed_before_release e = true) ->
  status <> 0 /\ forall e, e ∈ events s -> is_release e = false.
Proof.
  intros Hrun _ (e0 & Hin & Hfail).
  pose proof (main_run env) as H. unfold wp in H. rewrite Hrun in H.
  destruct (failed_before_release_failed e0 Hfail) as [Hf0 Hr0].
  assert (Hpre : forall pre, forallb quiet pre = true -> e0 ∉ pre).
  { intros pre Hq Hin'. rewrite forallb_forall in Hq.
    apply list_elem_of_In in Hin'. specialize (Hq e0 Hin').
    unfold quiet in Hq. rewrite Hf0 in Hq. discriminate. }
  destruct H as [pre e fmt args Hq Hf Hl Hrel | pre Hq].
  - split; [discriminate |].
    rewrite !elem_of_app in Hin. destruct Hin as [[Hin | Hin] | Hin].
    + destruct (Hpre pre Hq Hin).
    + apply list_elem_of_singleton in Hin. subst e0.
      specialize (Hrel Hfail). rewrite forallb_forall in Hrel.
      intros x Hx. rewrite !elem_of_app in Hx. destruct Hx as [[Hx | Hx] | Hx].
      * apply list_elem_of_In in Hx. specialize (Hrel x Hx).
        apply negb_true_iff in Hrel. exact Hrel.
      * apply list_elem_of_singleton in Hx. subst x. exact Hr0.
      * apply list_elem_of_singleton in Hx. subst x. reflexivity.
    + apply list_elem_of_singleton in Hin. subst e0. discriminate.
  - rewrite elem_of_app in Hin. destruct Hin as [Hin | Hin].
    + destruct (Hpre pre Hq Hin).
    + apply list_elem_of_singleton in Hin. subst e0. discriminate.
Qed.

Lemma run_no_device_b (env : Env) :
  malloc_a env = true -> malloc_b env = true -> malloc_c env = true ->
  cudaMalloc_a env = cudaSuccess -> cudaMalloc_b env <> cudaSuccess ->
  exists s, main env initial = Return EXIT_FAILURE s
            /\ events s = trace_no_device_b env.
Proof.
  intros Hma Hmb Hmc Hda Hdb.
  assert (H : wp (main env) initial (fun _ _ => False)
                 (fun status s => status = EXIT_FAILURE
                                  /\ events s = trace_no_device_b env)).
  { unfold main. cbv zeta.
    change (u64 (65536 * sizeof_real_type)) with 524288.
    apply wp_bind, wp_malloc; intros E; [| congruence].
    apply wp_bind, wp_check; [discriminate | intros _].
    apply wp_bind, wp_malloc; intros E'; [| congruence].
    apply wp_bind, wp_check; [discriminate | intros _].
    apply wp_bind, wp_malloc; intros E''; [| congruence].
    apply wp_bind, wp_check; [discriminate | intros _].
    apply wp_bind, wp_cudaMalloc; intros Ea; [| contradiction]; cbv beta iota.
    rewrite Ea.
    apply wp_bind, wp_check; [discriminate | intros _].
    apply wp_bind, wp_cudaMalloc; intros Eb; [contradiction |]; cbv beta iota.
    apply wp_bind, wp_check; intros Hc.
    - split; reflexivity.
    - apply check_passed in Hc. contradiction. }
  unfold wp in H.
  destruct (main env initial) as [a s | status s | s]; [destruct H | | destruct H].
  destruct H as [-> He]. exists s. auto.
Qed.

(** C7: when the host allocations and the first device allocation succeed
    and the device allocation of [b] fails, [main] returns a non-zero
    status; the only line written is the one on [stderr] that names device
    vector [b]; that line comes right after the failed call, and the kernel
    was not launched. *)
Theorem main_device_b_fails (env : Env) :
  malloc_a env = true -> malloc_b env = true -> malloc_c env = true ->
  cudaMalloc_a env = cudaSuccess -> cudaMalloc_b env <> cudaSuccess ->
  exists s fmt args,
    main env initial = Return EXIT_FAILURE s
    /\ EXIT_FAILURE <> 0
    /\ written stderr (events s) = [(fmt, args)]
    /\ mentions "device vector `b'" fmt = true
    /\ written stdout (events s) = []
    /\ forallb (fun e => negb (is_launch e)) (events s) = true
    /\ exists pre,
         events s = pre ++ [EcudaMalloc 524288 (cudaMalloc_b env) NULL;
                            Efprintf stderr fmt args].
Proof.
  intros Hma Hmb Hmc Hda Hdb.
  destruct (run_no_device_b env Hma Hmb Hmc Hda Hdb) as (s & Hrun & He).
  exists s. eexists. eexists. split; [exact Hrun |]. split; [discriminate |].
  rewrite He. unfold trace_no_device_b.
  split; [reflexivity |]. split; [reflexivity |]. split; [reflexivity |].
  split; [reflexivity |].
  exists [Emalloc 524288 (Ptr 1); Emalloc 524288 (Ptr 2); Emalloc 524288 (Ptr 3);
          EcudaMalloc 524288 cudaSuccess (Ptr 4)].
  reflexivity.
Qed.

Lemma main_device_b_fails_witness :
  exists s fmt args,
    main env_no_device_b initial = Return EXIT_FAILURE s
    /\ written stderr (events s) = [(fmt, args)]
    /\ mentions "device vector `b'" fmt = true
    /\ forallb (fun e => negb (is_launch e)) (events s) = true.
Proof.
  destruct (main_device_b_fails env_no_device_b)
    as (s & fmt & args & Hrun & _ & Herr & Hb & _ & Hl & _).
  - reflexivity.
  - reflexivity.
  - reflexivity.
  - reflexivity.
  - discriminate.
  - exists s, fmt, args. auto.
Defined.

Lemma main_keeps_buffers_witness :
  exists s,
    main env_no_device_b initial = Return EXIT_FAILURE s
    /\ EXIT_FAILURE <> 0
    /\ forall e, e ∈ events s -> is_release e = false.
Proof.
  destruct (run_no_device_b env_no_device_b) as (s & Hrun & He);
    [reflexivity | reflexivity | reflexivity | reflexivity | discriminate |].
  exists s. split; [exact Hrun |].
  apply (main_keeps_buffers env_no_device_b EXIT_FAILURE s Hrun).
  - exists (EcudaMalloc 524288 cudaSuccess (Ptr 4)). rewrite He.
    split; [| reflexivity]. unfold trace_no_device_b.
    do 3 apply list_elem_of_further. apply list_elem_of_here.
  - exists (EcudaMalloc 524288 2 NULL). rewrite He.
    split; [| reflexivity]. unfold trace_no_device_b.
    do 4 apply list_elem_of_further. apply list_elem_of_here.
Defined.

(** * Further properties of the code *)

(** ** The launch configuration and the launch, at any size *)

(** X1: the number of blocks computed at line 137 is the least number of blocks
    of [threads_per_block] lanes that covers [count], as long as the sum
    fits a [size_t] and the quotient an [unsigned]. *)
Theorem blocks_for_least (count threads_per_block : Z) :
  0 < count -> 0 < threads_per_block ->
  count + threads_per_block - 1 < 2 ^ 64 ->
  (count + threads_per_block - 1) / threads_per_block < 2 ^ 32 ->
  let blocks := blocks_for count threads_per_block in
  blocks = (count + threads_per_block - 1) / threads_per_block
  /\ (blocks - 1) * threads_per_block < count <= blocks * threads_per_block.
Proof.
  intros Hc Ht H64 H32 blocks.
  assert (Hb : blocks = (count + threads_per_block - 1) / threads_per_block).
  { unfold blocks, blocks_for, u32, u64.
    rewrite Zminus_mod_idemp_l.
    rewrite (Z.mod_small (count + threads_per_block - 1)) by lia.
    apply Z.mod_small. split; [| exact H32].
    apply Z.div_pos; lia. }
  split; [exact Hb |]. rewrite Hb.
  pose proof (Z.div_mod (count + threads_per_block - 1) threads_per_block
                ltac:(lia)) as Hd.
  pose proof (Z.mod_pos_bound (count + threads_per_block - 1) threads_per_block
                Ht) as Hm.
  nia.
Qed.

Lemma blocks_for_least_witness :
  blocks_for 1000 256 = (1000 + 256 - 1) / 256
  /\ (blocks_for 1000 256 - 1) * 256 < 1000 <= blocks_for 1000 256 * 256.
Proof.
  apply (blocks_for_least 1000 256); [lia | lia | | ].
  - vm_compute. reflexivity.
  - vm_compute. reflexivity.
Defined.

(** X2: a launch over any grid that covers [count] and whose largest index fits
    an [unsigned], in any order of the lanes: it does not fault, puts
    [a [i] + b [i]] at every index below [count] of [c], and leaves the rest
    of [c] and every other block as they were. *)
Theorem launch_covers_any
    (blocks threads count : Z) (m : devmem) (a b : ptr) (cb : positive)
    (abuf bbuf cbuf : list real_type) (sched : list (Z * Z)) :
  0 < threads -> blocks * threads <= 2 ^ 32 ->
  0 <= count <= blocks * threads ->
  block_of m a = Some abuf -> block_of m b = Some bbuf ->
  m !! cb = Some cbuf ->
  a <> Ptr cb -> b <> Ptr cb ->
  count <= Z.of_nat (length abuf) -> count <= Z.of_nat (length bbuf) ->
  count <= Z.of_nat (length cbuf) ->
  sched ≡ₚ grid blocks threads ->
  exists cbuf',
    (run_lanes sched threads a b (Ptr cb) count m).2
    = Some (tt, <[cb := cbuf']> m)
    /\ length cbuf' = length cbuf
    /\ (forall i, 0 <= i < count ->
        exists x y,
          abuf !! Z.to_nat i = Some x /\ bbuf !! Z.to_nat i = Some y
          /\ cbuf' !! Z.to_nat i = Some (add x y))
    /\ (forall j : nat, count <= Z.of_nat j -> cbuf' !! j = cbuf !! j).
Proof.
  intros Ht Hfit Hcount Ha Hb Hc Hac Hbc La Lb Lc Hperm.
  destruct (run_lanes_spec threads a b cb count abuf bbuf Hac Hbc La Lb sched
              m cbuf Ha Hb Hc Lc) as (cbuf' & Hrun & Hlen & Hsum & Hold).
  exists cbuf'. split; [exact Hrun |]. split; [exact Hlen |]. split.
  - intros i Hi.
    destruct (lane_of_index blocks threads i Ht Hfit) as [Hin Hidx]; [lia |].
    rewrite <- Hperm in Hin. specialize (Hsum _ Hin).
    rewrite Hidx in Hsum. apply Hsum. lia.
  - intros j Hj. apply Hold. intros lane _.
    destruct (Z.eq_dec (lane_index threads lane) (Z.of_nat j)) as [E | E];
      [right; lia | left; exact E].
Qed.

Lemma launch_covers_any_witness :
  exists cbuf',
    (run_lanes (grid 1 4) 4 (Ptr 1) (Ptr 2) (Ptr 3) 2 demo_mem).2
    = Some (tt, <[3%positive := cbuf']> demo_mem)
    /\ length cbuf' = 2%nat.
Proof.
  destruct (launch_covers_any 1 4 2 demo_mem (Ptr 1) (Ptr 2) 3
              [one; zero] [one; one] [zero; zero] (grid 1 4))
    as (cbuf' & Hrun & Hlen & _).
  - lia.
  - vm_compute. discriminate.
  - lia.
  - reflexivity.
  - reflexivity.
  - reflexivity.
  - discriminate.
  - discriminate.
  - simpl. lia.
  - simpl. lia.
  - simpl. lia.
  - reflexivity.
  - exists cbuf'. split; [exact Hrun | exact Hlen].
Defined.

(** X3: the order in which the device runs the lanes does not matter: two
    schedules with the same lanes leave the same memory. *)
Theorem launch_order_independent
    (blockDim_x count : Z) (m : devmem) (a b : ptr) (cb : positive)
    (abuf bbuf cbuf : list real_type) (sched1 sched2 : list (Z * Z)) :
  block_of m a = Some abuf -> block_of m b = Some bbuf ->
  m !! cb = Some cbuf ->
  a <> Ptr cb -> b <> Ptr cb ->
  count <= Z.of_nat (length abuf) -> count <= Z.of_nat (length bbuf) ->
  count <= Z.of_nat (length cbuf) ->
  sched1 ≡ₚ sched2 ->
  (run_lanes sched1 blockDim_x a b (Ptr cb) count m).2
  = (run_lanes sched2 blockDim_x a b (Ptr cb) count m).2
  /\ exists m', (run_lanes sched1 blockDim_x a b (Ptr cb) count m).2
                = Some (tt, m').
Proof.
  intros Ha Hb Hc Hac Hbc La Lb Lc Hperm.
  destruct (run_lanes_spec blockDim_x a b cb count abuf bbuf Hac Hbc La Lb
              sched1 m cbuf Ha Hb Hc Lc) as (c1 & Hrun1 & Hlen1 & Hsum1 & Hold1).
  destruct (run_lanes_spec blockDim_x a b cb count abuf bbuf Hac Hbc La Lb
              sched2 m cbuf Ha Hb Hc Lc) as (c2 & Hrun2 & Hlen2 & Hsum2 & Hold2).
  rewrite Hrun1, Hrun2. split; [| eexists; reflexivity].
  assert (Heq : c1 = c2); [| rewrite Heq; reflexivity].
  apply list_eq. intros j.
  destruct (decide (Exists (fun lane => lane_index blockDim_x lane = Z.of_nat j
                                        /\ lane_index blockDim_x lane < count)
                           sched1)) as [Hex | Hno].
  - apply Exists_exists in Hex. destruct Hex as (lane & Hin & Hidx & Hlt).
    destruct (Hsum1 lane Hin Hlt) as (x & y & Hx & Hy & H1).
    rewrite Hperm in Hin.
    destruct (Hsum2 lane Hin Hlt) as (x' & y' & Hx' & Hy' & H2).
    rewrite Hidx, Nat2Z.id in *. congruence.
  - assert (Hfree : forall lane, lane ∈ sched1 ->
              lane_index blockDim_x lane <> Z.of_nat j
              \/ count <= lane_index blockDim_x lane).
    { intros lane Hin.
      destruct (Z.eq_dec (lane_index blockDim_x lane) (Z.of_nat j)) as [E | E];
        [| left; exact E].
      destruct (Z.lt_ge_cases (lane_index blockDim_x lane) count) as [L | L];
        [| right; exact L].
      exfalso. apply Hno. apply Exists_exists. exists lane. auto. }
    rewrite (Hold1 j Hfree). symmetry. apply Hold2.
    intros lane Hin. apply Hfree. rewrite Hperm. exact Hin.
Qed.

Lemma launch_order_independent_witness :
  (run_lanes [(0, 0); (0, 1)] 4 (Ptr 1) (Ptr 2) (Ptr 3) 2 demo_mem).2
  = (run_lanes [(0, 1); (0, 0)] 4 (Ptr 1) (Ptr 2) (Ptr 3) 2 demo_mem).2.
Proof.
  apply (launch_order_independent 4 2 demo_mem (Ptr 1) (Ptr 2) 3
           [one; zero] [one; one] [zero; zero]).
  - reflexivity.
  - reflexivity.
  - reflexivity.
  - discriminate.
  - discriminate.
  - simpl. lia.
  - simpl. lia.
  - simpl. lia.
  - apply perm_swap.
Defined.

(** ** More on the tolerance comparator *)

(** X4: [isClose (x, x, ...)] is true for every double but a NaN, infinities
    included, whatever the tolerances (not negative) are. *)
Theorem isClose_refl (x rel_tol abs_tol : real_type) :
  geb rel_tol zero = true -> geb abs_tol zero = true ->
  isClose x x rel_tol abs_tol = Some (negb (is_nan x)).
Proof.
  intros Hr Ha. unfold isClose. rewrite Hr, Ha. cbn [negb].
  rewrite eqb_refl.
  destruct x as [s | s | | s m e]; reflexivity.
Qed.

Lemma isClose_refl_witness :
  isClose pinf pinf lit_1e_8 lit_1e_16 = Some true.
Proof.
  apply (isClose_refl pinf lit_1e_8 lit_1e_16); reflexivity.
Defined.

Lemma leb_trans (a b c : real_type) :
  leb a b = true -> leb b c = true -> leb a c = true.
Proof.
  unfold leb, SFleb.
  destruct a as [[] | [] | | [] ma ea], b as [[] | [] | | [] mb eb],
    c as [[] | [] | | [] mc ec]; simpl; try discriminate; try reflexivity;
    intros H1 H2; order_cases; simpl in *;
    try discriminate; try reflexivity; lia.
Qed.

Lemma mul_comm (x y : real_type) : mul x y = mul y x.
Proof.
  unfold mul, SFmul.
  destruct x as [sx | sx | | sx mx ex], y as [sy | sy | | sy my ey];
    try reflexivity; rewrite (xorb_comm sx sy); try reflexivity.
  rewrite (Pos.mul_comm mx my), (Z.add_comm ex ey). reflexivity.
Qed.

Lemma leb_zero_sign (s : bool) (a : real_type) :
  leb (S754_zero s) a = leb zero a.
Proof. destruct a; reflexivity. Qed.

Lemma geb_zero_cases (r : real_type) :
  geb r zero = true -> nonneg_finite r = true \/ r = pinf.
Proof.
  destruct r as [s | [] | | [] m e]; try discriminate; intros _; auto.
Qed.

Lemma nonneg_finite_geb (u : real_type) :
  nonneg_finite u = true -> geb u zero = true.
Proof. destruct u as [s | s | | [] m e]; try discriminate; reflexivity. Qed.

Lemma mul_mono_left (r r' u : real_type) :
  wf r -> wf r' -> wf u ->
  geb r zero = true -> leb r r' = true -> nonneg_finite u = true ->
  mul r u = nan \/ mul r' u = nan \/ leb (mul r u) (mul r' u) = true.
Proof.
  intros Wr Wr' Wu Hr Hle Hu.
  assert (Hr' : geb r' zero = true) by (apply (leb_trans zero r r'); assumption).
  destruct (geb_zero_cases r' Hr') as [Fr' | ->].
  - destruct (geb_zero_cases r Hr) as [Fr | ->].
    + rewrite (mul_comm r u), (mul_comm r' u).
      apply mul_mono; auto using nonneg_finite_geb.
    + destruct r' as [s | s | | [] m e]; discriminate.
  - destruct u as [su | su | | [] mu eu]; try discriminate Hu.
    + right. left. reflexivity.
    + destruct (geb_zero_cases r Hr) as [Fr | ->].
      * right. right.
        destruct r as [sr | sr | | [] mr er]; try discriminate Fr;
          [reflexivity |].
        unfold mul, SFmul. cbn [xorb].
        destruct (wf_finite _ _ _ Wr) as [Cr _].
        destruct (wf_finite _ _ _ Wu) as [Cu _].
        destruct (binary_round_aux_pos (mr * mu) (er + eu)) as (-> & Hq & _);
          [apply mul_shift; assumption |].
        unfold pack, out.
        destruct (_ =? 0); [reflexivity |].
        destruct (2 ^ 53 <=? _).
        -- destruct (_ <=? emax - prec); reflexivity.
        -- destruct (_ <=? emax - prec); reflexivity.
      * right. right. reflexivity.
Qed.

Lemma pack_not_nan (q E : Z) : pack q E <> nan.
Proof.
  unfold pack, out.
  destruct (q =? 0); [discriminate |].
  destruct (2 ^ 53 <=? q).
  - destruct (E + 1 <=? emax - prec); discriminate.
  - destruct (E <=? emax - prec); discriminate.
Qed.

Lemma mul_pos_not_nan (r : real_type) (m : positive) (e : Z) :
  wf r -> wf (S754_finite false m e) -> geb r zero = true ->
  mul r (S754_finite false m e) <> nan.
Proof.
  intros Wr Wu Hr.
  destruct r as [sr | [] | | [] mr er]; try discriminate Hr; try discriminate.
  unfold mul, SFmul. cbn [xorb].
  destruct (wf_finite _ _ _ Wr) as [Cr _].
  destruct (wf_finite _ _ _ Wu) as [Cu _].
  destruct (binary_round_aux_pos (mr * m) (er + e)) as (-> & _ & _);
    [apply mul_shift; assumption |].
  apply pack_not_nan.
Qed.

(** Widening the relative tolerance keeps a distance that was within it
    within it, or else within any absolute tolerance. *)
Lemma widen_relative (d r r' a' u : real_type) :
  wf r -> wf r' -> wf u ->
  geb r zero = true -> leb r r' = true -> geb a' zero = true ->
  nonneg_finite u = true ->
  leb d (mul r u) = true ->
  leb d (mul r' u) = true \/ leb d a' = true.
Proof.
  intros Wr Wr' Wu Hr Hle Ha' Hu Hd.
  destruct (mul_mono_left r r' u Wr Wr' Wu Hr Hle Hu) as [E | [E | E]].
  - rewrite E in Hd. destruct d; discriminate.
  - right.
    assert (Hz : exists s, mul r u = S754_zero s).
    { destruct u as [su | su | | [] mu eu]; try discriminate Hu.
      - destruct r as [sr | sr | | sr mr er]; try discriminate Hr.
        + eexists. reflexivity.
        + destruct d; discriminate.
        + eexists. reflexivity.
      - exfalso. apply (mul_pos_not_nan r' mu eu); try assumption.
        apply (leb_trans zero r r'); assumption. }
    destruct Hz as [s Hz]. rewrite Hz in Hd.
    apply (leb_trans d (S754_zero s) a'); [exact Hd |].
    rewrite leb_zero_sign. exact Ha'.
  - left. apply (leb_trans d (mul r u)); assumption.
Qed.

(** X5: a pair that [isClose] accepts is still accepted when either tolerance
    is made larger. *)
Theorem isClose_tolerance_mono (x y rel_tol abs_tol rel_tol' abs_tol' : real_type) :
  wf x -> wf y -> wf rel_tol -> wf rel_tol' ->
  geb rel_tol zero = true -> geb abs_tol zero = true ->
  leb rel_tol rel_tol' = true -> leb abs_tol abs_tol' = true ->
  isClose x y rel_tol abs_tol = Some true ->
  isClose x y rel_tol' abs_tol' = Some true.
Proof.
  intros Wx Wy Wr Wr' Hr Ha Hrr Haa.
  assert (Hr' : geb rel_tol' zero = true)
    by (apply (leb_trans zero rel_tol rel_tol'); assumption).
  assert (Ha' : geb abs_tol' zero = true)
    by (apply (leb_trans zero abs_tol abs_tol'); assumption).
  unfold isClose. rewrite Hr, Ha, Hr', Ha'. cbn [negb].
  destruct (isfinite x) eqn:Fx, (isfinite y) eqn:Fy; cbn [andb]; auto.
  destruct (eqb x y); [auto |].
  set (d := fabs (sub x y)).
  intros [= H]. f_equal.
  apply orb_true_iff in H. destruct H as [H | H].
  - apply orb_true_iff in H. destruct H as [H | H].
    + rewrite (leb_trans d abs_tol abs_tol' H Haa). reflexivity.
    + destruct (widen_relative d rel_tol rel_tol' abs_tol' (fabs x))
        as [E | E]; auto using fabs_wf, fabs_nonneg_finite;
        rewrite E; rewrite ?orb_true_r; reflexivity.
  - destruct (widen_relative d rel_tol rel_tol' abs_tol' (fabs y))
      as [E | E]; auto using fabs_wf, fabs_nonneg_finite;
      rewrite E; rewrite ?orb_true_r; reflexivity.
Qed.

Lemma isClose_tolerance_mono_witness :
  isClose one zero one one = Some true.
Proof.
  apply (isClose_tolerance_mono one zero one zero one one); reflexivity.
Defined.

(** ** A run with a library and a device that work *)

(** X6: with a C library and a device that do their part (no call fails,
    the device runs each lane of the grid once, in any order) and inputs
    whose sums are numbers, [main] returns zero: it makes all the calls of
    [success_calls] on the inputs [sin (i) * sin (i)] and
    [cos (i) * cos (i)], the array it reads back holds their sums, every
    element passes, the line [Done.] is printed, and at the end no block
    of host or device memory is left allocated. *)
Theorem main_success (env : Env) :
  works env ->
  (forall i, 0 <= i < 65536 -> is_nan (sum_at env i) = false) ->
  exists s,
    main env initial = Return EXIT_SUCCESS s
    /\ events s
       = success_calls env (inputs_a env) (inputs_b env) (sums env)
         ++ [Efprintf stdout (msg "Done.") []]
    /\ hmem s = ∅ /\ dmem s = ∅.
Proof.
  intros W Hnum. pose proof (main_on_working_device env W) as H.
  unfold wp in H.
  destruct (main env initial) as [a s | status s | s]; [destruct H | | destruct H].
  destruct H as [(_ & -> & He & Hh & Hd) | (k & Hk & Hnan & _)].
  - exists s. auto.
  - rewrite (Hnum k Hk) in Hnan. discriminate.
Qed.

Lemma main_success_witness :
  exists s, main unit_env initial = Return EXIT_SUCCESS s
            /\ hmem s = ∅ /\ dmem s = ∅.
Proof.
  destruct (main_success unit_env) as (s & Hrun & _ & Hh & Hd).
  - constructor; reflexivity.
  - intros i _. reflexivity.
  - exists s. auto.
Defined.

(** X7: on the same device, a sum that is a NaN makes [main] fail although
    the device computed what the host expects: [isClose] is false on a
    NaN and itself, so the run stops at the first index [k] whose sum is
    a NaN, after [k] elements that passed, with the report of element
    [k] and the status [EXIT_FAILURE]. *)
Theorem main_nan_reported (env : Env) (k : Z) :
  works env ->
  0 <= k < 65536 -> is_nan (sum_at env k) = true ->
  (forall i, 0 <= i < k -> is_nan (sum_at env i) = false) ->
  exists s,
    main env initial = Return EXIT_FAILURE s
    /\ events s
       = calls_before_validation env
         ++ checked (inputs_a env) (inputs_b env) (sums env) (seqZ 0 k)
         ++ report env (inputs_a env) (inputs_b env) (sums env) k.
Proof.
  intros W Hk Hnan Hfirst. pose proof (main_on_working_device env W) as H.
  unfold wp in H.
  destruct (main env initial) as [a s | status s | s]; [destruct H | | destruct H].
  destruct H as [(Hnum & _) | (k' & Hk' & Hnan' & Hfirst' & -> & He)].
  - rewrite (Hnum k Hk) in Hnan. discriminate.
  - assert (k' = k) as ->.
    { destruct (Z.lt_trichotomy k' k) as [L | [E | L]]; [| exact E |].
      - rewrite (Hfirst k') in Hnan' by lia. discriminate.
      - rewrite (Hfirst' k) in Hnan by lia. discriminate. }
    exists s. auto.
Qed.

Lemma main_nan_reported_witness :
  exists s, main nan_env initial = Return EXIT_FAILURE s.
Proof.
  destruct (main_nan_reported nan_env 0) as (s & Hrun & _).
  - constructor; reflexivity.
  - lia.
  - reflexivity.
  - intros i Hi. lia.
  - exists s. exact Hrun.
Defined.

(** ** The sums [main] compares are numbers *)







